(** * clip: batch clipping of Landsat bands to a mask extent

    A shallow embedding of [src/src/utils.cpp] and of the driver in
    [src/src/main.cpp].

    - A [std::string] is a [list ascii] ([cstring]).
    - A [size_t] is a [Z] in [0, 2^64); [npos] is [2^64 - 1] and the
      unsigned addition wraps ([size_plus]), which the source relies on in
      [line.find("=") + 1] and in [find_last_not_of(..) + 1].
    - An [int] is a [Z] in [[-2^31, 2^31)]; [std::stoi] range-checks its
      result, [int_plus] wraps.
    - A C++ exception is the [Throw] branch of [outcome]; [std::stoi] and
      [std::string::substr] are the two throwing library calls the program
      uses.
    - A [double] is a primitive binary64 [float].
    - The file system, the vector-mask reader and the raster-clip primitive
      are external; the driver takes them as an [Env] record. *)

From Stdlib Require Import ZArith List Ascii String Bool Lia Floats.
Import ListNotations.
Open Scope Z_scope.

(* ================================================================== *)
(** * std::string *)

Definition cstring := list ascii.

(** String literals of the source. *)
Definition str (s : string) : cstring := list_ascii_of_string s.

Definition size_modulus : Z := 2 ^ 64.
Definition npos : Z := size_modulus - 1.
Definition size_plus (a b : Z) : Z := (a + b) mod size_modulus.
Definition size (s : cstring) : Z := Z.of_nat (List.length s).

Definition empty (s : cstring) : bool :=
  match s with [] => true | _ => false end.

(** [s.front()] and [s.back()]; the callers test [!s.empty()] first (or
    have validated the string as non-empty), the default stands for the
    undefined read on an empty string. *)
Definition front (s : cstring) : ascii := hd Ascii.zero s.
Definition back (s : cstring) : ascii := last s Ascii.zero.

Fixpoint cstring_eqb (a b : cstring) : bool :=
  match a, b with
  | [], [] => true
  | x :: a', y :: b' => Ascii.eqb x y && cstring_eqb a' b'
  | _, _ => false
  end.

Definition one_of (chars : cstring) (c : ascii) : bool :=
  existsb (Ascii.eqb c) chars.

(** First and last index at which a character predicate holds. *)
Fixpoint index_first (p : ascii -> bool) (s : cstring) : option nat :=
  match s with
  | [] => None
  | c :: t => if p c then Some O else option_map S (index_first p t)
  end.

Fixpoint index_last (p : ascii -> bool) (s : cstring) : option nat :=
  match s with
  | [] => None
  | c :: t =>
      match index_last p t with
      | Some i => Some (S i)
      | None => if p c then Some O else None
      end
  end.

Fixpoint starts_with (p s : cstring) : bool :=
  match p, s with
  | [], _ => true
  | a :: p', b :: s' => Ascii.eqb a b && starts_with p' s'
  | _ :: _, [] => false
  end.

(** First index at which [p] occurs in [s] as a substring. *)
Fixpoint index_of (p s : cstring) : option nat :=
  match s with
  | [] => if starts_with p [] then Some O else None
  | _ :: t => if starts_with p s then Some O else option_map S (index_of p t)
  end.

Definition pos_of (o : option nat) : Z :=
  match o with Some i => Z.of_nat i | None => npos end.

Definition find (s p : cstring) : Z := pos_of (index_of p s).
Definition find_first_not_of (s chars : cstring) : Z :=
  pos_of (index_first (fun c => negb (one_of chars c)) s).
Definition find_last_not_of (s chars : cstring) : Z :=
  pos_of (index_last (fun c => negb (one_of chars c)) s).
Definition find_last_of (s chars : cstring) : Z :=
  pos_of (index_last (one_of chars) s).

(** ** Exceptions *)

Inductive exn := out_of_range | invalid_argument.

Inductive outcome (A : Type) :=
| Ret (a : A)
| Throw (e : exn).
Arguments Ret {A} a.
Arguments Throw {A} e.

Definition bind {A B} (m : outcome A) (k : A -> outcome B) : outcome B :=
  match m with Ret a => k a | Throw e => Throw e end.

Notation "x <- m ;; k" := (bind m (fun x => k))
  (at level 61, m at next level, right associativity).

(** The first [n] characters of [s], and [s] without them; the count is a
    [size_t] and may be as large as [npos]. *)
Fixpoint take (n : Z) (s : cstring) {struct s} : cstring :=
  if n <=? 0 then []
  else match s with
       | [] => []
       | c :: t => c :: take (n - 1) t
       end.

Fixpoint drop (n : Z) (s : cstring) {struct s} : cstring :=
  if n <=? 0 then s
  else match s with
       | [] => []
       | _ :: t => drop (n - 1) t
       end.

(** [s.substr(pos, count)]: throws when [pos > size()], otherwise the
    characters [pos, min(pos + count, size())). *)
Definition substr (s : cstring) (pos count : Z) : outcome cstring :=
  if size s <? pos then Throw out_of_range
  else Ret (take count (drop pos s)).

(** [s.substr(pos)]: the count defaults to [npos], which no size reaches,
    so the result is the whole rest of the string. *)
Definition substr_from (s : cstring) (pos : Z) : outcome cstring :=
  if size s <? pos then Throw out_of_range
  else Ret (drop pos s).

(** [s.erase(pos, count)] for [pos <= size()], as the program calls it. *)
Definition erase (s : cstring) (pos count : Z) : cstring :=
  take pos s ++ drop count (drop pos s).

Definition erase_from (s : cstring) (pos : Z) : cstring :=
  take pos s.

(** ** int, std::stoi and std::to_string *)

Definition int_min : Z := - 2 ^ 31.
Definition int_max : Z := 2 ^ 31 - 1.
Definition int_wrap (z : Z) : Z := (z + 2 ^ 31) mod 2 ^ 32 - 2 ^ 31.
Definition int_plus (a b : Z) : Z := int_wrap (a + b).

Definition is_space (c : ascii) : bool :=
  let n := Z.of_nat (nat_of_ascii c) in
  (n =? 32) || ((9 <=? n) && (n <=? 13)).

Definition is_digit (c : ascii) : bool :=
  let n := Z.of_nat (nat_of_ascii c) in (48 <=? n) && (n <=? 57).

Definition digit_value (c : ascii) : Z := Z.of_nat (nat_of_ascii c) - 48.
Definition digit_char (d : Z) : ascii := ascii_of_nat (Z.to_nat (d + 48)).

Fixpoint skip_spaces (s : cstring) : cstring :=
  match s with
  | c :: t => if is_space c then skip_spaces t else s
  | [] => []
  end.

(** The value of the longest run of decimal digits at the head of [s],
    accumulated from [acc]. *)
Fixpoint digits_value (acc : Z) (s : cstring) : Z :=
  match s with
  | c :: t => if is_digit c then digits_value (acc * 10 + digit_value c) t
              else acc
  | [] => acc
  end.

(** [std::stoi(s)] (base 10, no position out-parameter): [strtol] skips
    white space, takes an optional sign and the longest run of digits; no
    digit at all is [invalid_argument], a value that does not fit an [int]
    is [out_of_range].  Whatever follows the digits is ignored. *)
Definition stoi (s : cstring) : outcome Z :=
  let s1 := skip_spaces s in
  let '(neg, s2) :=
    match s1 with
    | c :: t => if Ascii.eqb c "-" then (true, t)
                else if Ascii.eqb c "+" then (false, t)
                else (false, s1)
    | [] => (false, s1)
    end in
  match s2 with
  | c :: _ =>
      if is_digit c then
        let v := digits_value 0 s2 in
        let v := if neg then - v else v in
        if (int_min <=? v) && (v <=? int_max) then Ret v
        else Throw out_of_range
      else Throw invalid_argument
  | [] => Throw invalid_argument
  end.

Fixpoint to_digits (fuel : nat) (n : Z) : cstring :=
  match fuel with
  | O => []
  | S f => (if n <? 10 then [] else to_digits f (n / 10))
             ++ [digit_char (n mod 10)]
  end.

(** [std::to_string(int)]: the decimal digits, most significant first, with
    a leading minus sign for a negative value. *)
Definition to_string (n : Z) : cstring :=
  if n <? 0 then "-"%char :: to_digits (S (Z.to_nat (Z.log2 (- n)))) (- n)
  else to_digits (S (Z.to_nat (Z.log2 n))) n.

(** The position [std::stoi(s, &pos)] stores on success: the number of
    characters processed, white space and sign included. *)
Fixpoint skip_digits (s : cstring) : cstring :=
  match s with
  | c :: t => if is_digit c then skip_digits t else s
  | [] => []
  end.

Definition skip_sign (s : cstring) : cstring :=
  match s with
  | c :: t => if Ascii.eqb c "-" then t
              else if Ascii.eqb c "+" then t
              else s
  | [] => s
  end.

Definition stoi_end (s : cstring) : Z :=
  size s - size (skip_digits (skip_sign (skip_spaces s))).

(* ================================================================== *)
(** * utils.cpp *)

Record PathParts := {
  directory : cstring;
  basename : cstring;
  stem : cstring;
  extension : cstring
}.

(** The loop of [split_by_commas]: one character, on the pair of the
    tokens pushed so far and the token being built. *)
Definition split_step (st : list cstring * cstring) (c : ascii)
  : list cstring * cstring :=
  let '(result, token) := st in
  if Ascii.eqb c ","
  then (if negb (empty token) then (result ++ [token], []) else (result, token))
  else (result, token ++ [c]).

Definition split_by_commas (input : cstring) : list cstring :=
  let '(result, token) := fold_left split_step input ([], []) in
  if negb (empty token) then result ++ [token] else result.

(** The loop of [string_to_int] on the strings left and the numbers
    pushed so far; [return {}] leaves the loop with the empty vector, on an
    exception of [std::stoi] and on a position short of the size. *)
Fixpoint string_to_int_loop (strings : list cstring) (numbers : list Z)
  : list Z :=
  match strings with
  | [] => numbers
  | s :: rest =>
      match stoi s with
      | Ret value =>
          if negb (stoi_end s =? size s) then []
          else string_to_int_loop rest (numbers ++ [value])
      | Throw _ => []
      end
  end.

Definition string_to_int (strings : list cstring) : list Z :=
  string_to_int_loop strings [].

(** [splitPath]; neither [substr] can throw here, its position is at most
    the size, so the parts are built from [take] and [drop] directly. *)
Definition splitPath (path : cstring) : PathParts :=
  let slashPos := find_last_of path (str "/\") in
  let '(dir, base) :=
    if slashPos =? npos then ([], path)
    else (take slashPos path, drop (size_plus slashPos 1) path) in
  let dotPos := find_last_of base (str ".") in
  let '(st, ext) :=
    if dotPos =? npos then (base, [])
    else (take dotPos base, drop dotPos base) in
  {| directory := dir; basename := base; stem := st; extension := ext |}.

Definition ends_with (s suffix : cstring) : bool :=
  if size s <? size suffix then false
  else starts_with (rev suffix) (rev s).

Definition find_pattern (filename pattern : cstring) : bool :=
  negb (find filename pattern =? npos).

(** The characters [" \t"] of the trimming calls, and the double quote. *)
Definition blanks : cstring := [" "; "009"]%char.
Definition dquote : ascii := "034"%char.

Definition stripString (input : cstring) : cstring :=
  let result := input in
  let result := erase result 0 (find_first_not_of result blanks) in
  let result := erase_from result (size_plus (find_last_not_of result blanks) 1) in
  let result :=
    if negb (empty result) && Ascii.eqb (front result) dquote
    then erase result 0 1 else result in
  let result :=
    if negb (empty result) && Ascii.eqb (back result) dquote
    then erase_from result (size result - 1) else result in
  result.

Definition getEPSGFromUTMZone (zone : Z) (isSouthernHemisphere : bool)
  : cstring :=
  if (zone <? 1) || (60 <? zone) then []
  else
    let epsgCode := if isSouthernHemisphere then int_plus 32700 zone
                    else int_plus 32600 zone in
    str "EPSG:" ++ to_string epsgCode.

(** [epsgStr.compare(0, prefix.size(), prefix) != 0] holds exactly when
    [epsgStr] does not begin with the prefix; [catch (...)] turns both
    exceptions of [std::stoi] into [-1]. *)
Definition parseEPSG (epsgStr : cstring) : Z :=
  let prefix := str "EPSG:" in
  if negb (starts_with prefix epsgStr) then -1
  else
    match (rest <- substr_from epsgStr (size prefix) ;; stoi rest) with
    | Ret n => n
    | Throw _ => -1
    end.

(** ** Metadata files *)

(** The lines [std::getline] delivers from a file of the given content:
    the pieces between newline characters, without a last empty piece. *)
Fixpoint getlines (content : cstring) : list cstring :=
  match content with
  | [] => []
  | c :: t =>
      if Ascii.eqb c "010" then [] :: getlines t
      else match getlines t with
           | [] => [[c]]
           | l :: ls => (c :: l) :: ls
           end
  end.

(** Both fields found: [!projection.empty() && utmZone != 0]. *)
Definition both_found (st : cstring * Z) : bool :=
  negb (empty (fst st)) && negb (snd st =? 0).

(** The body of the [while (std::getline(file, line))] loop up to the
    test that breaks out of it, on the pair [(projection, utmZone)]. *)
Definition scan_line (line : cstring) (st : cstring * Z)
  : outcome (cstring * Z) :=
  let '(projection, utmZone) := st in
  line <- substr line (find_first_not_of line blanks)
                      (size_plus (find_last_not_of line blanks) 1) ;;
  projection <-
    (if negb (find line (str "MAP_PROJECTION") =? npos) then
       let startPos := size_plus (find line (str "=")) 1 in
       v <- substr_from line startPos ;; Ret (stripString v)
     else Ret projection) ;;
  utmZone <-
    (if negb (find line (str "UTM_ZONE") =? npos) then
       let startPos := size_plus (find line (str "=")) 1 in
       v <- substr_from line startPos ;; stoi v
     else Ret utmZone) ;;
  Ret (projection, utmZone).

Fixpoint scan_lines (lines : list cstring) (st : cstring * Z)
  : outcome (cstring * Z) :=
  match lines with
  | [] => Ret st
  | line :: rest =>
      st' <- scan_line line st ;;
      if both_found st' then Ret st' else scan_lines rest st'
  end.

(** [extractProjectionInfo]: [file] is the content of the file when it can
    be opened; the result is the returned flag with the final values of
    the two reference parameters. *)
Definition extractProjectionInfo (file : option cstring)
    (projection : cstring) (utmZone : Z) : outcome (bool * cstring * Z) :=
  match file with
  | None => Ret (false, projection, utmZone)
  | Some content =>
      st <- scan_lines (getlines content) (projection, utmZone) ;;
      Ret (both_found st, fst st, snd st)
  end.

(* ================================================================== *)
(** * The environment of a run *)

Record BBox := {
  minX : float;
  minY : float;
  maxX : float;
  maxY : float
}.

(** The arguments of one call of [clipRasterByBBox]. *)
Record ClipCall := {
  inFile : cstring;
  outFile : cstring;
  box : BBox;
  epsgCode : Z
}.

(** What the program reads from outside.  [open_file] gives the content of
    a file that can be opened; [getShapefileExtent] gives
    [(xmin, xmax, ymin, ymax)] on success; the result of the clip
    primitive may depend on the calls made before it. *)
Record Env := {
  directory_exists : cstring -> bool;
  open_file : cstring -> option cstring;
  getShapefileExtent : cstring -> option (float * float * float * float);
  listFilesInDirectory : cstring -> list cstring;
  clipRasterByBBox : list ClipCall -> ClipCall -> bool
}.

Definition fileExists (E : Env) (filename : cstring) : bool :=
  match open_file E filename with Some _ => true | None => false end.

Definition locateMetadataFile (E : Env) (dirPath tifFilename : cstring)
  : cstring :=
  let base := take 40 tifFilename in
  let metadataFilename :=
    if negb (Ascii.eqb (back dirPath) "/")
    then dirPath ++ str "/" ++ base ++ str "_MTL.txt"
    else dirPath ++ base ++ str "_MTL.txt" in
  if negb (fileExists E metadataFilename) then [] else metadataFilename.

(* ================================================================== *)
(** * main.cpp *)

(** The option values after the [getopt_long] loop. *)
Record Options := {
  input_dir : cstring;
  output_dir : cstring;
  source_crs : cstring;
  mask_subset : cstring;
  datasets : cstring;
  pattern : cstring;
  label : cstring;
  debug : bool
}.

Definition EXIT_SUCCESS : Z := 0.
Definition EXIT_FAILURE : Z := 1.

(** How a run ends: [main] returns a code, or an exception nobody catches
    reaches [std::terminate]. *)
Inductive status :=
| Exited (code : Z)
| Terminated (e : exn).

(** The mutable state of the driver loop: the process-wide source CRS and
    the clip calls made so far. *)
Record LoopState := {
  cur_crs : cstring;
  clips : list ClipCall
}.

Inductive flow :=
| Continue (st : LoopState)
| Abort (s : status) (st : LoopState).

Fixpoint for_each {A : Type} (body : A -> LoopState -> flow)
    (l : list A) (st : LoopState) : flow :=
  match l with
  | [] => Continue st
  | x :: rest =>
      match body x st with
      | Continue st' => for_each body rest st'
      | Abort s st' => Abort s st'
      end
  end.

(** [std::string::operator<]: lexicographic on unsigned characters. *)
Fixpoint cstring_ltb (a b : cstring) : bool :=
  match a, b with
  | _, [] => false
  | [], _ :: _ => true
  | x :: a', y :: b' =>
      if (nat_of_ascii x <? nat_of_ascii y)%nat then true
      else if (nat_of_ascii y <? nat_of_ascii x)%nat then false
      else cstring_ltb a' b'
  end.

Fixpoint insert_sorted (x : cstring) (l : list cstring) : list cstring :=
  match l with
  | [] => [x]
  | y :: t => if cstring_ltb y x then y :: insert_sorted x t else x :: l
  end.

(** [std::sort] on file names: equal strings are indistinguishable, so the
    sorted list is unique and insertion sort computes it. *)
Definition sort (l : list cstring) : list cstring :=
  fold_right insert_sorted [] l.

(** Lines 174-180 of main.cpp: the extent, inflated. *)
Definition inflate (ext : float * float * float * float) : BBox :=
  let '(xmin, xmax, ymin, ymax) := ext in
  {| minX := PrimFloat.sub xmin 31%float;
     minY := PrimFloat.sub ymin 31%float;
     maxX := PrimFloat.add xmax 31%float;
     maxY := PrimFloat.add ymax 31%float |}.

(** Lines 222-240: the metadata file of [fname] and the update of the
    source CRS.  The result is the source CRS after the update. *)
Definition resolve_crs (E : Env) (o : Options) (fname crs : cstring)
  : outcome cstring :=
  let projection : cstring := [] in
  let utm_zone := 0 in
  let metadataPath := locateMetadataFile E (input_dir o) fname in
  if empty metadataPath then Ret crs
  else
    r <- extractProjectionInfo (open_file E metadataPath) projection utm_zone ;;
    let '(found, _, utm_zone) := r in
    if found then
      let temp_crs := getEPSGFromUTMZone utm_zone false in
      if negb (empty temp_crs) && negb (cstring_eqb crs temp_crs)
      then Ret temp_crs else Ret crs
    else Ret crs.

(** Lines 248-257: the two file names of the clip call. *)
Definition make_inFile (o : Options) (file_parts : PathParts) : cstring :=
  if negb (Ascii.eqb (back (input_dir o)) "/")
  then input_dir o ++ str "/" ++ stem file_parts ++ extension file_parts
  else input_dir o ++ stem file_parts ++ extension file_parts.

Definition make_outFile (o : Options) (file_parts : PathParts) : cstring :=
  if negb (Ascii.eqb (back (input_dir o)) "/")
  then output_dir o ++ str "/" ++ stem file_parts ++ label o
         ++ extension file_parts
  else output_dir o ++ stem file_parts ++ label o ++ extension file_parts.

(** The body of the inner loop, lines 196-268. *)
Definition process_file (E : Env) (o : Options) (bbox : BBox)
    (band fname : cstring) (st : LoopState) : flow :=
  if negb (empty (pattern o)) && negb (find_pattern fname (pattern o))
  then Continue st
  else
    let band_pattern := str "_" ++ band in
    if negb (find_pattern fname band_pattern) then Continue st
    else
      let file_parts := splitPath fname in
      if negb (cstring_eqb (extension file_parts) (str ".tif"))
      then Continue st
      else
        match resolve_crs E o fname (cur_crs st) with
        | Throw e => Abort (Terminated e) st
        | Ret crs =>
            let code := parseEPSG crs in
            if code =? -1
            then Abort (Exited EXIT_FAILURE)
                       {| cur_crs := crs; clips := clips st |}
            else
              let call := {| inFile := make_inFile o file_parts;
                             outFile := make_outFile o file_parts;
                             box := bbox;
                             epsgCode := code |} in
              let ok := clipRasterByBBox E (clips st) call in
              let st' := {| cur_crs := crs; clips := clips st ++ [call] |} in
              if negb ok then Abort (Exited EXIT_FAILURE) st'
              else Continue st'
        end.

(** The two nested loops, lines 192-269. *)
Definition driver_loop (E : Env) (o : Options) (bbox : BBox)
    (list_datasets list_files : list cstring) (st : LoopState) : flow :=
  for_each (fun band => for_each (process_file E o bbox band) list_files)
           list_datasets st.

(** [main] from line 94 on, for the option values [o]. *)
Definition main (E : Env) (o : Options) : status * LoopState :=
  let st0 := {| cur_crs := source_crs o; clips := [] |} in
  let failure := (Exited EXIT_FAILURE, st0) in
  if empty (input_dir o) then failure
  else if empty (output_dir o) then failure
  else if empty (source_crs o) then failure
  else if empty (mask_subset o) then failure
  else if empty (datasets o) then failure
  else if negb (directory_exists E (input_dir o)) then failure
  else if negb (directory_exists E (output_dir o)) then failure
  else
    let list_datasets := split_by_commas (datasets o) in
    match list_datasets with
    | [] => failure
    | _ :: _ =>
        match getShapefileExtent E (mask_subset o) with
        | None => failure
        | Some ext =>
            let bbox := inflate ext in
            let list_files := sort (listFilesInDirectory E (input_dir o)) in
            match driver_loop E o bbox list_datasets list_files st0 with
            | Continue st => (Exited EXIT_SUCCESS, st)
            | Abort s st => (s, st)
            end
        end
    end.

(** ** The option loop, lines 18-92 *)

(** What [getopt_long] returned, call after call, before it returned
    [-1]: the option character (['?'] for an option it does not know or
    an argument it misses) with the value of [optarg]. *)
Definition OptResult : Type := ascii * cstring.

(** The option values at the declarations of lines 20-27. *)
Definition default_options : Options :=
  {| input_dir := []; output_dir := []; source_crs := [];
     mask_subset := []; datasets := []; pattern := []; label := [];
     debug := false |}.

(** The assignment of one case of the [switch]. *)
Definition set_option (o : Options) (opt : ascii) (optarg : cstring)
  : option Options :=
  let '{| input_dir := i; output_dir := od; source_crs := c;
          mask_subset := m; datasets := d; pattern := p; label := n;
          debug := g |} := o in
  if Ascii.eqb opt "i" then
    Some {| input_dir := optarg; output_dir := od; source_crs := c;
            mask_subset := m; datasets := d; pattern := p; label := n;
            debug := g |}
  else if Ascii.eqb opt "o" then
    Some {| input_dir := i; output_dir := optarg; source_crs := c;
            mask_subset := m; datasets := d; pattern := p; label := n;
            debug := g |}
  else if Ascii.eqb opt "c" then
    Some {| input_dir := i; output_dir := od; source_crs := optarg;
            mask_subset := m; datasets := d; pattern := p; label := n;
            debug := g |}
  else if Ascii.eqb opt "m" then
    Some {| input_dir := i; output_dir := od; source_crs := c;
            mask_subset := optarg; datasets := d; pattern := p; label := n;
            debug := g |}
  else if Ascii.eqb opt "d" then
    Some {| input_dir := i; output_dir := od; source_crs := c;
            mask_subset := m; datasets := optarg; pattern := p; label := n;
            debug := g |}
  else if Ascii.eqb opt "p" then
    Some {| input_dir := i; output_dir := od; source_crs := c;
            mask_subset := m; datasets := d; pattern := optarg; label := n;
            debug := g |}
  else if Ascii.eqb opt "n" then
    Some {| input_dir := i; output_dir := od; source_crs := c;
            mask_subset := m; datasets := d; pattern := p; label := optarg;
            debug := g |}
  else if Ascii.eqb opt "g" then
    Some {| input_dir := i; output_dir := od; source_crs := c;
            mask_subset := m; datasets := d; pattern := p; label := n;
            debug := true |}
  else None.

(** How the option loop ends: [getopt_long] returned [-1] and the program
    goes on with the option values, or a case of the [switch] returned
    from [main] with a code. *)
Inductive parsed :=
| Parsed (o : Options)
| Returned (code : Z) (o : Options).

(** The loop of lines 50-92: [-h] and [-v] return [EXIT_SUCCESS], the
    eight other options set a value, anything else returns
    [EXIT_FAILURE]. *)
Fixpoint getopt_loop (results : list OptResult) (o : Options) : parsed :=
  match results with
  | [] => Parsed o
  | (opt, optarg) :: rest =>
      if Ascii.eqb opt "h" then Returned EXIT_SUCCESS o
      else if Ascii.eqb opt "v" then Returned EXIT_SUCCESS o
      else match set_option o opt optarg with
           | Some o' => getopt_loop rest o'
           | None => Returned EXIT_FAILURE o
           end
  end.

(** The whole of [main], on what [getopt_long] returns for the command
    line. *)
Definition main_argv (E : Env) (results : list OptResult)
  : status * LoopState :=
  match getopt_loop results default_options with
  | Returned code o => (Exited code, {| cur_crs := source_crs o; clips := [] |})
  | Parsed o => main E o
  end.

(* ================================================================== *)
(** * Reference definitions for the refinement statements *)

(** The fields of a comma-separated string: the pieces between the
    commas, empty ones included. *)
Fixpoint fields (s : cstring) : list cstring :=
  match s with
  | [] => [[]]
  | c :: t =>
      if Ascii.eqb c "," then [] :: fields t
      else match fields t with
           | [] => [[c]]
           | f :: fs => (c :: f) :: fs
           end
  end.

(** The fields put back together with a comma between neighbours. *)
Fixpoint join_commas (l : list cstring) : cstring :=
  match l with
  | [] => []
  | [f] => f
  | f :: fs => f ++ ","%char :: join_commas fs
  end.

Definition nonempty (s : cstring) : bool := negb (empty s).

Definition no_comma (s : cstring) : Prop :=
  Forall (fun c => c <> ","%char) s.

(** The non-empty comma-separated tokens of [s], in their order. *)
Definition comma_tokens (s : cstring) : list cstring :=
  filter nonempty (fields s).

(** The decimal value of a numeral, digit by digit from the left. *)
Definition numeral_step (a : Z) (c : ascii) : Z := a * 10 + digit_value c.

Definition numeral_value (ds : cstring) : Z := fold_left numeral_step ds 0.

(** [t] does not begin with a decimal digit. *)
Definition no_digit_head (t : cstring) : Prop :=
  match t with
  | c :: _ => is_digit c = false
  | [] => True
  end.

(** The filter at the head of the loop body: the file passes the pattern,
    the band and the extension tests. *)
Definition matched (o : Options) (band fname : cstring) : bool :=
  negb (negb (empty (pattern o)) && negb (find_pattern fname (pattern o)))
  && find_pattern fname (str "_" ++ band)
  && cstring_eqb (extension (splitPath fname)) (str ".tif").

(** The CRS the metadata file of [fname] gives, when there is a metadata
    file, both fields are found and the zone is a UTM zone. *)
Definition metadata_crs (E : Env) (o : Options) (fname : cstring)
  : outcome (option cstring) :=
  let metadataPath := locateMetadataFile E (input_dir o) fname in
  if empty metadataPath then Ret None
  else
    r <- extractProjectionInfo (open_file E metadataPath) [] 0 ;;
    let '(found, _, zone) := r in
    if found && negb (empty (getEPSGFromUTMZone zone false))
    then Ret (Some (getEPSGFromUTMZone zone false))
    else Ret None.

(** The resolution policy: a metadata CRS that differs from the current
    source CRS replaces it. *)
Definition adopt (crs : cstring) (m : option cstring) : cstring :=
  match m with
  | Some t => if cstring_eqb crs t then crs else t
  | None => crs
  end.

(** A directory joined with a file name, with a separator when the
    directory lacks a trailing one. *)
Definition join_path (dir name : cstring) : cstring :=
  if Ascii.eqb (back dir) "/" then dir ++ name else dir ++ str "/" ++ name.

Definition state_of (r : flow) : LoopState :=
  match r with Continue st => st | Abort _ st => st end.

(** Every call of the list succeeded, each seen after the ones before. *)
Definition all_clips_ok (E : Env) (l : list ClipCall) : Prop :=
  forall pre c post, l = pre ++ c :: post -> clipRasterByBBox E pre c = true.

(** The path separators [splitPath] looks for. *)
Definition is_separator (c : ascii) : Prop := c = "/"%char \/ c = "\"%char.

(** The two cuts of [splitPath], one at a time. *)
Definition cut_directory (path : cstring) : cstring * cstring :=
  let slashPos := find_last_of path (str "/\") in
  if slashPos =? npos then ([], path)
  else (take slashPos path, drop (size_plus slashPos 1) path).

Definition cut_extension (base : cstring) : cstring * cstring :=
  let dotPos := find_last_of base (str ".") in
  if dotPos =? npos then (base, [])
  else (take dotPos base, drop dotPos base).

(** The clip call the loop body makes for a file once the CRS is [crs]. *)
Definition clip_call (o : Options) (bbox : BBox) (fname crs : cstring)
  : ClipCall :=
  {| inFile := make_inFile o (splitPath fname);
     outFile := make_outFile o (splitPath fname);
     box := bbox;
     epsgCode := parseEPSG crs |}.

(** Where a loop may stop: every call so far succeeded, or the last call
    failed, those before it succeeded, and the status is a failure. *)
Definition stopped_at_failure (E : Env) (s : status) (st : LoopState) : Prop :=
  all_clips_ok E (clips st)
  \/ exists pre c,
       clips st = pre ++ [c] /\ all_clips_ok E pre
       /\ clipRasterByBBox E pre c = false /\ s = Exited EXIT_FAILURE.

(** A source CRS string that names a Northern-hemisphere UTM zone. *)
Definition northern (crs : cstring) : Prop :=
  exists zone, 1 <= zone <= 60 /\ crs = str "EPSG:" ++ to_string (32600 + zone).

(** An EPSG code a run may clip with: the code of the configured source
    CRS or a Northern-hemisphere UTM code. *)
Definition configured_or_northern (o : Options) (code : Z) : Prop :=
  code = parseEPSG (source_crs o)
  \/ exists zone, 1 <= zone <= 60 /\ code = 32600 + zone.

(** The invariant of a run for the source CRS and the codes it clips
    with. *)
Definition crs_invariant (o : Options) (st : LoopState) : Prop :=
  (cur_crs st = source_crs o \/ northern (cur_crs st))
  /\ Forall (fun c => configured_or_northern o (epsgCode c)) (clips st).


(** [p] occurs in [s] as a substring. *)
Definition occurs (p s : cstring) : Prop :=
  exists pre post, s = pre ++ p ++ post.

(** A character of the set the trimming calls remove. *)
Definition is_blank (c : ascii) : Prop := one_of blanks c = true.

(** A string [std::stoi] does not convert in full. *)
Definition not_an_int (s : cstring) : Prop :=
  (exists e, stoi s = Throw e) \/ stoi_end s <> size s.

(** The file names of the clip calls a complete run makes: for each
    dataset in turn, the listed files that pass the filters, in the order
    of the list. *)
Definition expected_files (o : Options) (list_datasets list_files : list cstring)
  : list (cstring * cstring) :=
  flat_map
    (fun band =>
       map (fun fname => (make_inFile o (splitPath fname),
                          make_outFile o (splitPath fname)))
           (filter (matched o band) list_files))
    list_datasets.

Definition call_files (c : ClipCall) : cstring * cstring :=
  (inFile c, outFile c).

(** The origin of a clip call: a dataset name and a listed file that
    passes the three filters. *)
Definition call_origin (E : Env) (o : Options)
    (list_datasets list_files : list cstring) (c : ClipCall) : Prop :=
  exists band fname,
    In band list_datasets /\ In fname list_files
    /\ (pattern o = [] \/ find_pattern fname (pattern o) = true)
    /\ find_pattern fname (str "_" ++ band) = true
    /\ extension (splitPath fname) = str ".tif"
    /\ inFile c = make_inFile o (splitPath fname)
    /\ outFile c = make_outFile o (splitPath fname).

(** What a run that ends in [std::terminate] points back to: a listed
    file whose metadata file was found and made the extraction throw. *)
Definition terminated_by_metadata (E : Env) (o : Options)
    (list_files : list cstring) (s : status) : Prop :=
  match s with
  | Exited _ => True
  | Terminated e =>
      exists fname,
        In fname list_files
        /\ locateMetadataFile E (input_dir o) fname <> []
        /\ extractProjectionInfo
             (open_file E (locateMetadataFile E (input_dir o) fname)) [] 0
           = Throw e
  end.

(** The texts [std::stoi] converts, with their values: white space, an
    optional sign, a numeral, and anything that does not begin with a
    digit; the value fits an [int]. *)
Definition stoi_accepts (r : cstring) (n : Z) : Prop :=
  exists ws sign ds t,
    r = ws ++ sign ++ ds ++ t
    /\ forallb is_space ws = true
    /\ (sign = [] \/ sign = ["+"%char] \/ sign = ["-"%char])
    /\ ds <> [] /\ forallb is_digit ds = true /\ no_digit_head t
    /\ n = (if cstring_eqb sign ["-"%char]
            then - numeral_value ds else numeral_value ds)
    /\ int_min <= n <= int_max.

(** ["EPSG:"] followed by a text [std::stoi] converts to [n]. *)
Definition epsg_text (s : cstring) (n : Z) : Prop :=
  exists r, s = str "EPSG:" ++ r /\ stoi_accepts r n.

(** A path without its trailing separators. *)
Fixpoint skip_separators (s : cstring) : cstring :=
  match s with
  | c :: t => if one_of (str "/\") c then skip_separators t else s
  | [] => []
  end.

Definition normalize_path (path : cstring) : cstring :=
  rev (skip_separators (rev path)).

(** [-h] or [-v] is among the options of the command line. *)
Definition help_or_version (results : list OptResult) : Prop :=
  exists before opt optarg after,
    results = before ++ (opt, optarg) :: after
    /\ (opt = "h"%char \/ opt = "v"%char).

(** The option values pass every check [main] makes before the loop over
    the files. *)
Definition validated (E : Env) (o : Options) : Prop :=
  input_dir o <> [] /\ output_dir o <> [] /\ source_crs o <> []
  /\ mask_subset o <> [] /\ datasets o <> []
  /\ directory_exists E (input_dir o) = true
  /\ directory_exists E (output_dir o) = true
  /\ split_by_commas (datasets o) <> []
  /\ getShapefileExtent E (mask_subset o) <> None.

(** The command line of the sample runs. *)
Definition sample_command_line : list OptResult :=
  [("i"%char, str "in/"); ("o"%char, str "out");
   ("c"%char, str "EPSG:32615"); ("m"%char, str "mask.shp");
   ("d"%char, str "B4"); ("n"%char, str "_clip")].

(** The newline character as a string. *)
Definition nl : cstring := ["010"%char].

(** A metadata file of two lines: the projection [w] in double quotes
    and the zone written as the numeral [ds]. *)
Definition projection_line (w : cstring) : cstring :=
  str "MAP_PROJECTION = " ++ dquote :: w ++ [dquote].

Definition zone_line (ds : cstring) : cstring := str "UTM_ZONE = " ++ ds.

Definition metadata_text (w ds : cstring) : cstring :=
  projection_line w ++ nl ++ zone_line ds ++ nl.

(* ================================================================== *)
(** * Sample runs *)

Definition scene_47_B4 : cstring :=
  str "LC08_L2SP_021047_20250923_20251001_02_T1_SR_B4.tif".
Definition scene_48_B4 : cstring :=
  str "LC08_L2SP_021048_20250923_20251001_02_T1_SR_B4.tif".
Definition scene_47_MTL : cstring :=
  str "in/LC08_L2SP_021047_20250923_20251001_02_T1_MTL.txt".

(** Options of the sample runs: the input directory ends with a
    separator, the output directory does not. *)
Definition sample_options : Options :=
  {| input_dir := str "in/"; output_dir := str "out";
     source_crs := str "EPSG:32615"; mask_subset := str "mask.shp";
     datasets := str "B4"; pattern := []; label := str "_clip";
     debug := false |}.

(** Two scenes; the first has a metadata file with the given content, the
    second has none.  The mask extent is (100,100)-(200,200) and every
    clip succeeds. *)
Definition env_with_metadata (content : cstring) : Env :=
  {| directory_exists := fun _ => true;
     open_file := fun f =>
       if cstring_eqb f scene_47_MTL then Some content else None;
     getShapefileExtent := fun _ => Some (100, 200, 100, 200)%float;
     listFilesInDirectory := fun _ => [scene_48_B4; scene_47_B4];
     clipRasterByBBox := fun _ _ => true |}.

Definition sample_env : Env :=
  env_with_metadata
    (str "  MAP_PROJECTION = " ++ [dquote] ++ str "UTM" ++ [dquote] ++ nl
     ++ str "  UTM_ZONE = 12" ++ nl).

(** Three matching files without metadata; the clip of the second fails. *)
Definition failing_env : Env :=
  {| directory_exists := fun _ => true;
     open_file := fun _ => None;
     getShapefileExtent := fun _ => Some (100, 200, 100, 200)%float;
     listFilesInDirectory := fun _ =>
       [str "c_B4.tif"; str "a_B4.tif"; str "b_B4.tif"];
     clipRasterByBBox := fun _ c =>
       negb (cstring_eqb (inFile c) (str "in/b_B4.tif")) |}.

Definition sample_box : BBox := inflate (100, 200, 100, 200)%float.

Definition sample_state : LoopState :=
  {| cur_crs := str "EPSG:32615"; clips := [] |}.


(* ================================================================== *)
(** * Strings: basic facts *)

Lemma cstring_eqb_eq (a b : cstring) : cstring_eqb a b = true <-> a = b.
Proof.
  revert b; induction a as [|x a IH]; intros [|y b]; simpl.
  - tauto.
  - split; discriminate.
  - split; discriminate.
  - rewrite andb_true_iff, Ascii.eqb_eq, IH.
    split; [intros [-> ->]; reflexivity | intros H; inversion H; auto].
Qed.

Lemma cstring_eqb_refl (a : cstring) : cstring_eqb a a = true.
Proof. apply cstring_eqb_eq; reflexivity. Qed.

Lemma take_drop (n : Z) (s : cstring) : take n s ++ drop n s = s.
Proof.
  revert n; induction s as [|c t IH]; intros n; simpl;
    destruct (n <=? 0); simpl; try reflexivity.
  now rewrite IH.
Qed.

Lemma drop_nonpos (n : Z) (s : cstring) : n <= 0 -> drop n s = s.
Proof.
  intros H. destruct s; simpl;
    replace (n <=? 0) with true by (symmetry; now apply Z.leb_le);
    reflexivity.
Qed.

Lemma drop_app_cons (pre : cstring) (c : ascii) (post : cstring) :
  drop (Z.of_nat (List.length pre) + 1) (pre ++ c :: post) = post.
Proof.
  induction pre as [|x pre IH].
  - simpl. destruct post; reflexivity.
  - cbn [List.length app drop].
    replace (Z.of_nat (S (List.length pre)) + 1 <=? 0) with false
      by (symmetry; apply Z.leb_gt; lia).
    replace (Z.of_nat (S (List.length pre)) + 1 - 1)
      with (Z.of_nat (List.length pre) + 1) by lia.
    exact IH.
Qed.

Lemma take_app (pre post : cstring) :
  take (Z.of_nat (List.length pre)) (pre ++ post) = pre.
Proof.
  induction pre as [|x pre IH].
  - simpl. destruct post; reflexivity.
  - cbn [List.length app take].
    replace (Z.of_nat (S (List.length pre)) <=? 0) with false
      by (symmetry; apply Z.leb_gt; lia).
    replace (Z.of_nat (S (List.length pre)) - 1)
      with (Z.of_nat (List.length pre)) by lia.
    now rewrite IH.
Qed.

(** The last position at which [p] holds splits the string around it. *)
Lemma index_last_Some (p : ascii -> bool) (s : cstring) (i : nat) :
  index_last p s = Some i ->
  exists pre c post,
    s = pre ++ c :: post /\ List.length pre = i /\ p c = true
    /\ forallb (fun x => negb (p x)) post = true.
Proof.
  revert i; induction s as [|x t IH]; intros i; simpl; [discriminate|].
  destruct (index_last p t) as [j|] eqn:Hj.
  - intros [= <-]. destruct (IH j eq_refl) as (pre & c & post & -> & Hl & Hc & Hp).
    exists (x :: pre), c, post. simpl. auto.
  - destruct (p x) eqn:Hx; [|discriminate]. intros [= <-].
    exists [], x, t. repeat split; auto.
    clear IH Hx. induction t as [|y t IHt]; simpl in *; [reflexivity|].
    destruct (index_last p t); [discriminate|].
    destruct (p y); [discriminate|]. simpl. now apply IHt.
Qed.

Lemma index_last_None (p : ascii -> bool) (s : cstring) :
  index_last p s = None <-> forallb (fun x => negb (p x)) s = true.
Proof.
  induction s as [|x t IH]; simpl; [tauto|].
  destruct (index_last p t).
  - split; [discriminate|]. rewrite andb_true_iff. intros [_ H].
    apply IH in H. discriminate.
  - destruct (p x); simpl; [split; discriminate|].
    split; [intros _; now apply IH | reflexivity].
Qed.

(* ================================================================== *)
(** * split_by_commas *)

Lemma fields_not_nil (s : cstring) : fields s <> [].
Proof.
  destruct s as [|c t]; simpl; [discriminate|].
  destruct (Ascii.eqb c ","); [discriminate|].
  destruct (fields t); discriminate.
Qed.

(** The fields are the unique decomposition of the string at its commas:
    joined with commas they give the string back, ... *)
Lemma join_fields (s : cstring) : join_commas (fields s) = s.
Proof.
  induction s as [|c t IH]; [reflexivity|].
  cbn [fields]. destruct (Ascii.eqb c ",") eqn:Hc.
  - apply Ascii.eqb_eq in Hc; subst c.
    pose proof (fields_not_nil t) as Hn.
    destruct (fields t) as [|f fs] eqn:Hf; [contradiction|].
    cbn [join_commas app]. now rewrite <- IH.
  - pose proof (fields_not_nil t) as Hn.
    destruct (fields t) as [|f fs] eqn:Hf; [contradiction|].
    rewrite <- IH. destruct fs; reflexivity.
Qed.

(** ... and none of them contains a comma. *)
Lemma fields_no_comma (s : cstring) : Forall no_comma (fields s).
Proof.
  induction s as [|c t IH]; cbn [fields].
  - repeat constructor.
  - destruct (Ascii.eqb c ",") eqn:Hc.
    + constructor; [constructor | exact IH].
    + apply Ascii.eqb_neq in Hc.
      destruct (fields t) as [|f fs].
      * repeat constructor; assumption.
      * inversion IH; subst. constructor; [constructor|]; assumption.
Qed.

(** The state of the loop after the characters of [s], flushed as the code
    does after the loop, in terms of the fields of [s]: the token under
    construction is the beginning of the first field. *)
Lemma split_loop (s : cstring) :
  forall (res : list cstring) (tok : cstring),
    (let '(result, token) := fold_left split_step s (res, tok) in
     if negb (empty token) then result ++ [token] else result)
    = res ++ filter nonempty
               (match fields s with
                | f :: fs => (tok ++ f) :: fs
                | [] => [tok]
                end).
Proof.
  induction s as [|c t IH]; intros res tok.
  - cbn [fold_left fields filter]. rewrite app_nil_r.
    unfold nonempty. destruct tok; simpl; [now rewrite app_nil_r | reflexivity].
  - cbn [fold_left fields]. unfold split_step at 2.
    destruct (Ascii.eqb c ",") eqn:Hc.
    + pose proof (fields_not_nil t) as Hn.
      rewrite app_nil_r. cbn [filter].
      destruct tok as [|x tok]; cbn [empty negb nonempty].
      * rewrite IH. destruct (fields t); [contradiction | reflexivity].
      * rewrite IH. rewrite <- app_assoc.
        destruct (fields t); [contradiction | reflexivity].
    + rewrite IH. pose proof (fields_not_nil t) as Hn.
      destruct (fields t) as [|f fs]; [contradiction|].
      now rewrite <- app_assoc.
Qed.

(** C6. [split_by_commas] returns exactly the non-empty comma-separated
    tokens of its input, in their original order: the fields of the input
    (the pieces between its commas, which joined with commas give the
    input back and contain no comma) with the empty ones dropped and the
    others unchanged (no trimming); ["a,,b, c"] gives [["a"; "b"; " c"]]. *)
Theorem split_by_commas_tokens (input : cstring) :
  split_by_commas input = comma_tokens input
  /\ join_commas (fields input) = input
  /\ Forall no_comma (fields input)
  /\ split_by_commas (str "a,,b, c") = [str "a"; str "b"; str " c"].
Proof.
  repeat split.
  - unfold split_by_commas, comma_tokens.
    etransitivity; [exact (split_loop input [] [])|]. cbn [app].
    pose proof (fields_not_nil input).
    destruct (fields input); [contradiction | reflexivity].
  - apply join_fields.
  - apply fields_no_comma.
Qed.

(* ================================================================== *)
(** * splitPath *)

Lemma one_of_separators (c : ascii) :
  one_of (str "/\") c = true <-> is_separator c.
Proof.
  unfold one_of, is_separator; simpl.
  rewrite !orb_true_iff, !Ascii.eqb_eq. intuition discriminate.
Qed.

Lemma forallb_not_one_of (chars s : cstring) :
  forallb (fun x => negb (one_of chars x)) s = true <->
  Forall (fun x => one_of chars x = false) s.
Proof.
  rewrite forallb_forall, Forall_forall.
  split; intros H x Hx; specialize (H x Hx);
    destruct (one_of chars x); simpl in *; congruence.
Qed.

Lemma splitPath_cuts (path : cstring) :
  splitPath path =
  {| directory := fst (cut_directory path);
     basename := snd (cut_directory path);
     stem := fst (cut_extension (snd (cut_directory path)));
     extension := snd (cut_extension (snd (cut_directory path))) |}.
Proof.
  unfold splitPath, cut_directory, cut_extension.
  destruct (find_last_of path (str "/\") =? npos); cbn [fst snd];
    match goal with
    | |- context [find_last_of ?b (str ".") =? npos] =>
        destruct (find_last_of b (str ".") =? npos)
    end; reflexivity.
Qed.

Lemma cut_extension_app (base : cstring) :
  fst (cut_extension base) ++ snd (cut_extension base) = base.
Proof.
  unfold cut_extension.
  destruct (find_last_of base (str ".") =? npos); cbn [fst snd].
  - apply app_nil_r.
  - apply take_drop.
Qed.

Lemma cut_extension_no_dot (base : cstring) :
  Forall (fun c => c <> "."%char) base ->
  cut_extension base = (base, []).
Proof.
  intros H. unfold cut_extension, find_last_of.
  replace (index_last (one_of (str ".")) base) with (@None nat);
    [reflexivity|].
  symmetry. apply index_last_None, forallb_not_one_of.
  eapply Forall_impl; [|exact H]. intros c Hc. unfold one_of; simpl.
  rewrite orb_false_r. now apply Ascii.eqb_neq.
Qed.

Lemma cut_directory_spec (path : cstring) :
  size path < npos ->
  (cut_directory path = ([], path)
   /\ Forall (fun c => ~ is_separator c) path)
  \/ (exists sep,
        is_separator sep
        /\ path = fst (cut_directory path) ++ sep :: snd (cut_directory path)
        /\ Forall (fun c => ~ is_separator c) (snd (cut_directory path))).
Proof.
  intros Hsize. unfold cut_directory, find_last_of.
  destruct (index_last (one_of (str "/\")) path) as [i|] eqn:Hi.
  - right. apply index_last_Some in Hi.
    destruct Hi as (pre & c & post & -> & Hl & Hc & Hp).
    unfold size in Hsize. rewrite length_app in Hsize. simpl in Hsize.
    cbn [pos_of]. subst i.
    assert (Hnp : npos = 2 ^ 64 - 1) by reflexivity.
    replace (Z.of_nat (List.length pre) =? npos) with false
      by (symmetry; apply Z.eqb_neq; lia).
    unfold size_plus, size_modulus. rewrite Z.mod_small by lia.
    cbn [fst snd]. rewrite take_app, drop_app_cons.
    exists c. split; [now apply one_of_separators|]. split; [reflexivity|].
    apply forallb_not_one_of in Hp.
    eapply Forall_impl; [|exact Hp]. intros x Hx Hs.
    apply one_of_separators in Hs. congruence.
  - left. cbn [pos_of]. rewrite Z.eqb_refl. split; [reflexivity|].
    apply index_last_None, forallb_not_one_of in Hi.
    eapply Forall_impl; [|exact Hi]. intros x Hx Hs.
    apply one_of_separators in Hs. congruence.
Qed.

(* ================================================================== *)
(** * Numerals: std::stoi and std::to_string *)

Lemma digit_char_spec (d : Z) :
  0 <= d <= 9 -> is_digit (digit_char d) = true /\ digit_value (digit_char d) = d.
Proof.
  intros H.
  assert (Hd : d = 0 \/ d = 1 \/ d = 2 \/ d = 3 \/ d = 4 \/ d = 5 \/ d = 6
               \/ d = 7 \/ d = 8 \/ d = 9) by lia.
  repeat (destruct Hd as [-> | Hd]; [split; reflexivity|]).
  subst d; split; reflexivity.
Qed.

Lemma is_digit_range (c : ascii) :
  is_digit c = true <-> 48 <= Z.of_nat (nat_of_ascii c) <= 57.
Proof.
  unfold is_digit. cbv zeta. rewrite andb_true_iff, !Z.leb_le. tauto.
Qed.

Lemma is_digit_not_space (c : ascii) : is_digit c = true -> is_space c = false.
Proof.
  rewrite is_digit_range. intros H. unfold is_space. cbv zeta.
  apply orb_false_iff; split.
  - apply Z.eqb_neq. lia.
  - apply andb_false_iff. right. apply Z.leb_gt. lia.
Qed.

Lemma is_digit_not_sign (c : ascii) :
  is_digit c = true -> Ascii.eqb c "-" = false /\ Ascii.eqb c "+" = false.
Proof.
  rewrite is_digit_range. intros H.
  split; apply Ascii.eqb_neq; intros ->; simpl in H; lia.
Qed.

Lemma digit_value_range (c : ascii) :
  is_digit c = true -> 0 <= digit_value c <= 9.
Proof. rewrite is_digit_range. unfold digit_value. lia. Qed.

Lemma numeral_value_fold (ds : cstring) :
  numeral_value ds = fold_left numeral_step ds 0.
Proof. reflexivity. Qed.

Lemma numeral_fold_nonneg (ds : cstring) :
  forallb is_digit ds = true ->
  forall acc, 0 <= acc -> 0 <= fold_left numeral_step ds acc.
Proof.
  induction ds as [|c ds IH]; simpl; intros H acc Hacc; [assumption|].
  apply andb_true_iff in H as [Hc Hds].
  apply IH; [assumption|]. unfold numeral_step.
  pose proof (digit_value_range c Hc). lia.
Qed.

(** The scan of [strtol] over a run of digits followed by something that
    is not a digit. *)
Lemma digits_value_app (ds t : cstring) :
  forallb is_digit ds = true -> no_digit_head t ->
  forall acc, digits_value acc (ds ++ t) = fold_left numeral_step ds acc.
Proof.
  intros Hds Ht. induction ds as [|c ds IH]; intros acc.
  - simpl. destruct t as [|x t]; simpl in *; [reflexivity|]. now rewrite Ht.
  - simpl in Hds. apply andb_true_iff in Hds as [Hc Hds].
    simpl. rewrite Hc. now apply IH.
Qed.

(** [std::stoi] on a numeral followed by anything that does not start
    with a digit: the value of the numeral; what follows is ignored. *)
Lemma stoi_numeral (ds t : cstring) :
  ds <> [] -> forallb is_digit ds = true -> no_digit_head t ->
  numeral_value ds <= int_max ->
  stoi (ds ++ t) = Ret (numeral_value ds).
Proof.
  intros Hne Hds Ht Hmax.
  destruct ds as [|c ds]; [contradiction|].
  pose proof Hds as Hall. simpl in Hds. apply andb_true_iff in Hds as [Hc _].
  pose proof (is_digit_not_space c Hc) as Hsp.
  destruct (is_digit_not_sign c Hc) as [Hm Hp].
  unfold stoi. cbn [app skip_spaces]. rewrite Hsp, Hm, Hp, Hc.
  change (c :: ds ++ t) with ((c :: ds) ++ t).
  rewrite (digits_value_app _ _ Hall Ht 0), <- numeral_value_fold.
  pose proof (numeral_fold_nonneg _ Hall 0 (Z.le_refl 0)) as Hpos.
  rewrite <- numeral_value_fold in Hpos.
  replace (int_min <=? numeral_value (c :: ds)) with true
    by (symmetry; apply Z.leb_le; unfold int_min; lia).
  replace (numeral_value (c :: ds) <=? int_max) with true
    by (symmetry; now apply Z.leb_le).
  reflexivity.
Qed.

Lemma to_digits_spec (fuel : nat) :
  forall n, 0 <= n < 2 ^ Z.of_nat fuel ->
    forallb is_digit (to_digits fuel n) = true
    /\ forall acc, exists k, 0 <= k
         /\ fold_left numeral_step (to_digits fuel n) acc = acc * 10 ^ k + n.
Proof.
  induction fuel as [|f IH]; intros n Hn.
  - simpl in Hn. split; [reflexivity|]. intros acc. exists 0. simpl. lia.
  - cbn [to_digits].
    assert (Hmod : 0 <= n mod 10 <= 9) by (pose proof (Z.mod_pos_bound n 10); lia).
    destruct (digit_char_spec _ Hmod) as [Hd Hv].
    destruct (n <? 10) eqn:Hlt.
    + apply Z.ltb_lt in Hlt. rewrite Z.mod_small in * by lia.
      split; [simpl; now rewrite Hd|].
      intros acc. exists 1. simpl. unfold numeral_step. rewrite Hv. lia.
    + apply Z.ltb_ge in Hlt.
      assert (Hq : 0 <= n / 10 < 2 ^ Z.of_nat f).
      { split; [apply Z.div_pos; lia|].
        apply Z.div_lt_upper_bound; [lia|].
        rewrite Nat2Z.inj_succ, Z.pow_succ_r in Hn by lia. lia. }
      destruct (IH _ Hq) as [Hall Hfold].
      split.
      * rewrite forallb_app, Hall. simpl. now rewrite Hd.
      * intros acc. destruct (Hfold acc) as (k & Hk & Hf).
        exists (k + 1). split; [lia|].
        rewrite fold_left_app, Hf. simpl. unfold numeral_step at 1.
        rewrite Hv, Z.pow_add_r by lia.
        pose proof (Z.div_mod n 10). lia.
Qed.

Lemma to_digits_not_nil (fuel : nat) (n : Z) : to_digits (S fuel) n <> [].
Proof.
  cbn [to_digits]. intros H. apply app_eq_nil in H as [_ H]. discriminate.
Qed.

(** [std::to_string] of a non-negative value is its numeral. *)
Lemma to_string_numeral (n : Z) :
  0 <= n ->
  to_string n <> [] /\ forallb is_digit (to_string n) = true
  /\ numeral_value (to_string n) = n.
Proof.
  intros Hn. unfold to_string.
  replace (n <? 0) with false by (symmetry; apply Z.ltb_ge; lia).
  split; [apply to_digits_not_nil|].
  assert (Hb : 0 <= n < 2 ^ Z.of_nat (S (Z.to_nat (Z.log2 n)))).
  { split; [assumption|].
    rewrite Nat2Z.inj_succ, Z2Nat.id by apply Z.log2_nonneg.
    destruct (Z.eq_dec n 0) as [-> | Hz]; [reflexivity|].
    apply Z.log2_spec. lia. }
  destruct (to_digits_spec _ _ Hb) as [Hall Hfold].
  split; [assumption|].
  destruct (Hfold 0) as (k & _ & Hf). rewrite numeral_value_fold, Hf. lia.
Qed.

(** [std::stoi] reads back what [std::to_string] wrote. *)
Lemma stoi_to_string (n : Z) (t : cstring) :
  0 <= n <= int_max -> no_digit_head t -> stoi (to_string n ++ t) = Ret n.
Proof.
  intros [Hn Hmax] Ht.
  destruct (to_string_numeral n Hn) as (Hne & Hall & Hv).
  rewrite stoi_numeral; rewrite ?Hv; auto.
Qed.

(* ================================================================== *)
(** * parseEPSG and getEPSGFromUTMZone *)

Lemma int_wrap_small (z : Z) : int_min <= z <= int_max -> int_wrap z = z.
Proof.
  unfold int_min, int_max, int_wrap. intros H.
  rewrite Z.mod_small by lia. lia.
Qed.

Lemma parseEPSG_prefix (rest : cstring) :
  parseEPSG (str "EPSG:" ++ rest)
  = match stoi rest with Ret n => n | Throw _ => -1 end.
Proof.
  unfold parseEPSG. cbn [str list_ascii_of_string app starts_with].
  rewrite !Ascii.eqb_refl. cbn [andb negb].
  unfold substr_from, size. cbn [List.length].
  replace (Z.of_nat (S (S (S (S (S (List.length rest)))))) <? Z.of_nat 5)
    with false by (symmetry; apply Z.ltb_ge; lia).
  simpl drop. now rewrite drop_nonpos by lia.
Qed.

Lemma parseEPSG_to_string (n : Z) :
  0 <= n <= int_max -> parseEPSG (str "EPSG:" ++ to_string n) = n.
Proof.
  intros H. rewrite parseEPSG_prefix.
  rewrite <- (app_nil_r (to_string n)), stoi_to_string; simpl; auto.
Qed.

(** C3 as stated fails: a string with a non-numeric suffix after the code
    is accepted. *)
Lemma parseEPSG_suffix_accepted :
  parseEPSG (str "EPSG:32615abc") = 32615
  /\ parseEPSG (str "EPSG:32615abc") <> -1.
Proof. split; [reflexivity | vm_compute; discriminate]. Qed.

Lemma getEPSGFromUTMZone_in_range (zone : Z) (isSouthernHemisphere : bool) :
  1 <= zone <= 60 ->
  getEPSGFromUTMZone zone isSouthernHemisphere
  = str "EPSG:"
      ++ to_string ((if isSouthernHemisphere then 32700 else 32600) + zone).
Proof.
  intros H. unfold getEPSGFromUTMZone.
  replace ((zone <? 1) || (60 <? zone)) with false
    by (symmetry; apply orb_false_iff; split; apply Z.ltb_ge; lia).
  unfold int_plus.
  destruct isSouthernHemisphere;
    rewrite int_wrap_small by (unfold int_min, int_max; lia); reflexivity.
Qed.

Lemma getEPSGFromUTMZone_out_of_range (zone : Z) (isSouthernHemisphere : bool) :
  zone < 1 \/ 60 < zone -> getEPSGFromUTMZone zone isSouthernHemisphere = [].
Proof.
  intros H. unfold getEPSGFromUTMZone.
  replace ((zone <? 1) || (60 <? zone)) with true; [reflexivity|].
  symmetry. apply orb_true_iff.
  destruct H; [left | right]; now apply Z.ltb_lt.
Qed.

Lemma parseEPSG_getEPSGFromUTMZone (zone : Z) (isSouthernHemisphere : bool) :
  1 <= zone <= 60 ->
  parseEPSG (getEPSGFromUTMZone zone isSouthernHemisphere)
  = (if isSouthernHemisphere then 32700 else 32600) + zone.
Proof.
  intros H. rewrite getEPSGFromUTMZone_in_range by assumption.
  apply parseEPSG_to_string. unfold int_max.
  destruct isSouthernHemisphere; lia.
Qed.

(** C4. For [1 <= zone <= 60], [getEPSGFromUTMZone] returns ["EPSG:"]
    followed by the decimal string of [32600 + zone] (Northern) or of
    [32700 + zone] (Southern), which [parseEPSG] reads back as that code;
    for a zone below [1] or above [60] it returns the empty string. *)
Theorem getEPSGFromUTMZone_spec (zone : Z) (isSouthernHemisphere : bool) :
  let code := (if isSouthernHemisphere then 32700 else 32600) + zone in
  (1 <= zone <= 60 ->
   getEPSGFromUTMZone zone isSouthernHemisphere = str "EPSG:" ++ to_string code
   /\ parseEPSG (getEPSGFromUTMZone zone isSouthernHemisphere) = code)
  /\ (zone < 1 \/ 60 < zone ->
      getEPSGFromUTMZone zone isSouthernHemisphere = []).
Proof.
  cbv zeta. split.
  - intros H. split.
    + now apply getEPSGFromUTMZone_in_range.
    + now apply parseEPSG_getEPSGFromUTMZone.
  - apply getEPSGFromUTMZone_out_of_range.
Qed.

(** C4, at zone 15 (Northern), zone 33 (Southern), zone 0 and zone 61. *)
Lemma getEPSGFromUTMZone_spec_witness :
  getEPSGFromUTMZone 15 false = str "EPSG:32615"
  /\ getEPSGFromUTMZone 33 true = str "EPSG:32733"
  /\ getEPSGFromUTMZone 0 false = []
  /\ getEPSGFromUTMZone 61 false = [].
Proof.
  split; [|split; [|split]].
  - destruct (getEPSGFromUTMZone_spec 15 false) as [H _].
    destruct H as [H _]; [lia|]. rewrite H. reflexivity.
  - destruct (getEPSGFromUTMZone_spec 33 true) as [H _].
    destruct H as [H _]; [lia|]. rewrite H. reflexivity.
  - apply (getEPSGFromUTMZone_spec 0 false). lia.
  - apply (getEPSGFromUTMZone_spec 61 false). lia.
Defined.

(* ================================================================== *)
(** * The driver loop *)

Lemma resolve_crs_adopt (E : Env) (o : Options) (fname crs : cstring) :
  resolve_crs E o fname crs
  = (m <- metadata_crs E o fname ;; Ret (adopt crs m)).
Proof.
  unfold resolve_crs, metadata_crs. cbv zeta.
  destruct (empty (locateMetadataFile E (input_dir o) fname)); [reflexivity|].
  destruct (extractProjectionInfo _ [] 0) as [[[found p] zone]|e];
    [|reflexivity].
  cbn [bind]. destruct found; [|reflexivity]. cbn [andb adopt].
  destruct (empty (getEPSGFromUTMZone zone false)); [reflexivity|].
  cbn [negb andb bind adopt].
  destruct (cstring_eqb crs (getEPSGFromUTMZone zone false)); reflexivity.
Qed.

(** An invariant of the loop body, on the elements of the list, is an
    invariant of the loop. *)
Lemma for_each_invariant_in {A : Type} (P : LoopState -> Prop)
    (Q : status -> LoopState -> Prop) (body : A -> LoopState -> flow)
    (l : list A) :
  (forall x st, In x l -> P st ->
     match body x st with Continue st' => P st' | Abort s st' => Q s st' end) ->
  forall st, P st ->
    match for_each body l st with
    | Continue st' => P st'
    | Abort s st' => Q s st'
    end.
Proof.
  induction l as [|x l IH]; intros Hbody st Hst; simpl; [assumption|].
  pose proof (Hbody x st (or_introl eq_refl) Hst) as Hx.
  destruct (body x st) as [st'|s st']; [|assumption].
  apply IH; [|assumption]. intros y st0 Hy. apply Hbody. now right.
Qed.

(** What [main] returns: a failure before the loop, with no clip call
    made, or the outcome of the loop on the inflated extent. *)
Lemma main_cases (E : Env) (o : Options) :
  let st0 := {| cur_crs := source_crs o; clips := [] |} in
  main E o = (Exited EXIT_FAILURE, st0)
  \/ exists ext,
       getShapefileExtent E (mask_subset o) = Some ext
       /\ main E o =
          match driver_loop E o (inflate ext) (split_by_commas (datasets o))
                  (sort (listFilesInDirectory E (input_dir o))) st0 with
          | Continue st => (Exited EXIT_SUCCESS, st)
          | Abort s st => (s, st)
          end.
Proof.
  cbv zeta. unfold main.
  repeat match goal with
         | |- context [if ?b then _ else _] =>
             destruct b; [left; reflexivity|]
         end.
  destruct (getShapefileExtent E (mask_subset o)) as [ext|];
    [|left; reflexivity].
  right. exists ext. split; reflexivity.
Qed.

Lemma all_clips_ok_nil (E : Env) : all_clips_ok E [].
Proof. intros pre c post H. destruct pre; discriminate. Qed.

Lemma all_clips_ok_snoc (E : Env) (l : list ClipCall) (c : ClipCall) :
  all_clips_ok E l -> clipRasterByBBox E l c = true ->
  all_clips_ok E (l ++ [c]).
Proof.
  intros Hl Hc pre c' post. induction post as [|x post _] using rev_ind.
  - intros H. apply app_inj_tail in H as [-> ->]. exact Hc.
  - intros H. change (pre ++ c' :: post ++ [x])
      with (pre ++ (c' :: post) ++ [x]) in H.
    rewrite app_assoc in H. apply app_inj_tail in H as [-> _].
    now apply (Hl pre c' post).
Qed.

Lemma stopped_at_failure_last (E : Env) (s : status) (st : LoopState)
    (pre : list ClipCall) (c : ClipCall) (post : list ClipCall) :
  stopped_at_failure E s st ->
  clips st = pre ++ c :: post -> clipRasterByBBox E pre c = false ->
  post = [] /\ s = Exited EXIT_FAILURE.
Proof.
  intros [Hok | (pre' & c' & Hcl & Hok & Hfail & Hs)] Heq Hc.
  - rewrite (Hok pre c post Heq) in Hc. discriminate.
  - rewrite Hcl in Heq. clear Hcl.
    induction post as [|x post _] using rev_ind.
    + split; [reflexivity | assumption].
    + change (pre ++ c :: post ++ [x])
        with (pre ++ (c :: post) ++ [x]) in Heq.
      rewrite app_assoc in Heq. apply app_inj_tail in Heq as [-> _].
      rewrite (Hok pre c post eq_refl) in Hc. discriminate.
Qed.

Lemma metadata_crs_zone (E : Env) (o : Options) (fname t : cstring) :
  metadata_crs E o fname = Ret (Some t) ->
  exists zone, 1 <= zone <= 60 /\ t = getEPSGFromUTMZone zone false.
Proof.
  unfold metadata_crs. cbv zeta.
  destruct (empty (locateMetadataFile E (input_dir o) fname)); [discriminate|].
  destruct (extractProjectionInfo _ [] 0) as [[[found p] zone]|e];
    [|discriminate].
  cbn [bind].
  destruct (found && negb (empty (getEPSGFromUTMZone zone false))) eqn:H;
    [|discriminate].
  intros [= <-]. exists zone. split; [|reflexivity].
  apply andb_true_iff in H as [_ H].
  destruct (Z_lt_dec zone 1) as [Hlo|Hlo];
    [rewrite getEPSGFromUTMZone_out_of_range in H by lia; discriminate|].
  destruct (Z_lt_dec 60 zone) as [Hhi|Hhi];
    [rewrite getEPSGFromUTMZone_out_of_range in H by lia; discriminate|].
  lia.
Qed.

Lemma resolve_crs_cases (E : Env) (o : Options) (fname crs crs' : cstring) :
  resolve_crs E o fname crs = Ret crs' ->
  exists m, metadata_crs E o fname = Ret m /\ crs' = adopt crs m.
Proof.
  rewrite resolve_crs_adopt.
  destruct (metadata_crs E o fname) as [m|e]; [|discriminate].
  cbn [bind]. intros [= <-]. now exists m.
Qed.

Lemma adopt_cases (crs : cstring) (m : option cstring) :
  adopt crs m = crs \/ m = Some (adopt crs m).
Proof.
  destruct m as [t|]; [|now left]. cbn [adopt].
  destruct (cstring_eqb crs t); [now left | now right].
Qed.

Lemma northern_zone (zone : Z) :
  1 <= zone <= 60 -> northern (getEPSGFromUTMZone zone false).
Proof.
  intros H. exists zone. split; [assumption|].
  now apply getEPSGFromUTMZone_in_range.
Qed.

Lemma northern_code (crs : cstring) :
  northern crs -> exists zone, 1 <= zone <= 60 /\ parseEPSG crs = 32600 + zone.
Proof.
  intros (zone & Hz & ->). exists zone. split; [assumption|].
  apply parseEPSG_to_string. unfold int_max. lia.
Qed.

Lemma northern_not_southern (crs : cstring) (z : Z) :
  northern crs -> 1 <= z <= 60 -> crs <> getEPSGFromUTMZone z true.
Proof.
  intros Hn Hz Heq. destruct (northern_code crs Hn) as (zone & Hzone & Hc).
  rewrite Heq, parseEPSG_getEPSGFromUTMZone in Hc by assumption. lia.
Qed.

Lemma resolve_crs_northern (E : Env) (o : Options) (fname crs crs' : cstring) :
  resolve_crs E o fname crs = Ret crs' -> crs' = crs \/ northern crs'.
Proof.
  intros H. apply resolve_crs_cases in H as (m & Hm & ->).
  destruct (adopt_cases crs m) as [Ha | Ha]; [now left|].
  right. rewrite Ha in Hm.
  apply metadata_crs_zone in Hm as (zone & Hz & ->). now apply northern_zone.
Qed.



(** ** Invariants of the loop, for a fixed environment, option values and
    bounding box *)

Section Driver.

Variable E : Env.
Variable o : Options.
Variable bbox : BBox.

(** The loop body, case by case. *)
Lemma process_file_cases (band fname : cstring) (st : LoopState) :
  process_file E o bbox band fname st =
  if matched o band fname then
    match resolve_crs E o fname (cur_crs st) with
    | Throw e => Abort (Terminated e) st
    | Ret crs =>
        if parseEPSG crs =? -1
        then Abort (Exited EXIT_FAILURE) {| cur_crs := crs; clips := clips st |}
        else
          let call := clip_call o bbox fname crs in
          let st' := {| cur_crs := crs; clips := clips st ++ [call] |} in
          if clipRasterByBBox E (clips st) call then Continue st'
          else Abort (Exited EXIT_FAILURE) st'
    end
  else Continue st.
Proof.
  unfold process_file, matched, clip_call. cbv zeta.
  destruct (negb (empty (pattern o)) && negb (find_pattern fname (pattern o)));
    [reflexivity|].
  cbn [negb andb].
  destruct (find_pattern fname (str "_" ++ band)); [|reflexivity].
  cbn [negb andb].
  destruct (cstring_eqb (extension (splitPath fname)) (str ".tif"));
    [|reflexivity].
  cbn [negb].
  destruct (resolve_crs E o fname (cur_crs st)) as [crs|e]; [|reflexivity].
  destruct (parseEPSG crs =? -1); [reflexivity|].
  destruct (clipRasterByBBox E (clips st) _); reflexivity.
Qed.

Lemma driver_loop_invariant_in (P : LoopState -> Prop)
    (Q : status -> LoopState -> Prop)
    (list_datasets list_files : list cstring) :
  (forall band fname st, In fname list_files -> P st ->
     match process_file E o bbox band fname st with
     | Continue st' => P st'
     | Abort s st' => Q s st'
     end) ->
  forall st, P st ->
    match driver_loop E o bbox list_datasets list_files st with
    | Continue st' => P st'
    | Abort s st' => Q s st'
    end.
Proof.
  intros Hbody. unfold driver_loop.
  apply for_each_invariant_in. intros band st _ Hst.
  apply for_each_invariant_in; [|assumption].
  intros fname st0 Hin Hst0. now apply Hbody.
Qed.

Lemma driver_loop_invariant (P : LoopState -> Prop)
    (Q : status -> LoopState -> Prop) :
  (forall band fname st, P st ->
     match process_file E o bbox band fname st with
     | Continue st' => P st'
     | Abort s st' => Q s st'
     end) ->
  forall list_datasets list_files st, P st ->
    match driver_loop E o bbox list_datasets list_files st with
    | Continue st' => P st'
    | Abort s st' => Q s st'
    end.
Proof.
  intros Hbody list_datasets list_files.
  apply driver_loop_invariant_in. intros band fname st _. apply Hbody.
Qed.

Lemma process_file_stops_at_failure (band fname : cstring) (st : LoopState) :
  all_clips_ok E (clips st) ->
  match process_file E o bbox band fname st with
  | Continue st' => all_clips_ok E (clips st')
  | Abort s st' => stopped_at_failure E s st'
  end.
Proof.
  intros Hst. rewrite process_file_cases.
  destruct (matched o band fname); [|assumption].
  destruct (resolve_crs E o fname (cur_crs st)) as [crs|e];
    [|left; assumption].
  destruct (parseEPSG crs =? -1); [left; assumption|].
  cbv zeta.
  destruct (clipRasterByBBox E (clips st) _) eqn:Hclip.
  - now apply all_clips_ok_snoc.
  - right. cbn [clips]. eauto 6.
Qed.

Lemma process_file_box (band fname : cstring) (st : LoopState) :
  Forall (fun c => box c = bbox) (clips st) ->
  match process_file E o bbox band fname st with
  | Continue st' => Forall (fun c => box c = bbox) (clips st')
  | Abort _ st' => Forall (fun c => box c = bbox) (clips st')
  end.
Proof.
  intros Hst. rewrite process_file_cases.
  destruct (matched o band fname); [|assumption].
  destruct (resolve_crs E o fname (cur_crs st)) as [crs|e]; [|assumption].
  destruct (parseEPSG crs =? -1); [assumption|].
  cbv zeta.
  destruct (clipRasterByBBox E (clips st) _); cbn [clips];
    apply Forall_app; split; auto.
Qed.

Lemma driver_loop_box (list_datasets list_files : list cstring) (st : LoopState) :
  Forall (fun c => box c = bbox) (clips st) ->
  Forall (fun c => box c = bbox)
         (clips (state_of (driver_loop E o bbox list_datasets list_files st))).
Proof.
  intros Hst.
  pose proof (driver_loop_invariant _ _ process_file_box
                list_datasets list_files st Hst) as Hinv.
  destruct (driver_loop E o bbox list_datasets list_files st); exact Hinv.
Qed.

Lemma process_file_crs_invariant (band fname : cstring) (st : LoopState) :
  crs_invariant o st ->
  match process_file E o bbox band fname st with
  | Continue st' => crs_invariant o st'
  | Abort _ st' => crs_invariant o st'
  end.
Proof.
  intros [Hcrs Hcl]. rewrite process_file_cases.
  destruct (matched o band fname); [|now split].
  destruct (resolve_crs E o fname (cur_crs st)) as [crs|e] eqn:Hr;
    [|now split].
  assert (Hcrs' : crs = source_crs o \/ northern crs).
  { apply resolve_crs_northern in Hr as [-> | Hn]; [assumption | now right]. }
  destruct (parseEPSG crs =? -1); [now split|].
  assert (Hcode : configured_or_northern o (parseEPSG crs)).
  { destruct Hcrs' as [-> | Hn]; [now left | right].
    now apply northern_code. }
  cbv zeta.
  destruct (clipRasterByBBox E (clips st) _); split; cbn [cur_crs clips];
    try assumption; apply Forall_app; split; auto.
Qed.



End Driver.

(* ================================================================== *)
(** * A failed clip ends the run *)

(** C8. In every run, a clip call that fails is the last call of the run
    and the run returns the failure status 1: no file is clipped after a
    failed clip.  (With three matching files of which the second fails to
    clip, the run makes two calls and exits with 1.) *)
Theorem clip_failure_aborts (E : Env) (o : Options)
    (pre : list ClipCall) (c : ClipCall) (post : list ClipCall) :
  clips (snd (main E o)) = pre ++ c :: post ->
  clipRasterByBBox E pre c = false ->
  post = [] /\ fst (main E o) = Exited EXIT_FAILURE.
Proof.
  destruct (main_cases E o) as [-> | (ext & _ & ->)].
  - cbn [snd clips]. intros H. destruct pre; discriminate.
  - pose proof (driver_loop_invariant E o (inflate ext)
                  (fun st => all_clips_ok E (clips st))
                  (stopped_at_failure E)
                  (process_file_stops_at_failure E o (inflate ext))
                  (split_by_commas (datasets o))
                  (sort (listFilesInDirectory E (input_dir o)))
                  {| cur_crs := source_crs o; clips := [] |}
                  (all_clips_ok_nil E)) as Hinv.
    destruct (driver_loop E o (inflate ext) _ _ _) as [st|s st];
      cbn [fst snd]; intros Heq Hc.
    + rewrite (Hinv pre c post Heq) in Hc. discriminate.
    + exact (stopped_at_failure_last E s st pre c post Hinv Heq Hc).
Qed.

(** C8, on three matching files of which the second fails to clip: the
    failed call is the second and last one. *)
Lemma clip_failure_aborts_witness :
  List.length (clips (snd (main failing_env sample_options))) = 2%nat
  /\ fst (main failing_env sample_options) = Exited EXIT_FAILURE.
Proof.
  split; [vm_compute; reflexivity|].
  refine (proj2 (clip_failure_aborts failing_env sample_options
            [clip_call sample_options sample_box (str "a_B4.tif")
               (str "EPSG:32615")]
            (clip_call sample_options sample_box (str "b_B4.tif")
               (str "EPSG:32615"))
            [] _ _)).
  - vm_compute. reflexivity.
  - vm_compute. reflexivity.
Defined.

(* ================================================================== *)
(** * The bounding box of a run *)

(** C9. The extent read from the mask is inflated by 31 on every side
    ([minX - 31], [minY - 31], [maxX + 31], [maxY + 31]), so that
    (100,100)-(200,200) becomes (69,69)-(231,231), and that one inflated box
    is the box of every clip call of the run: nothing changes it after the
    inflation. *)
Theorem bbox_inflated_once :
  (forall xmin xmax ymin ymax,
     inflate (xmin, xmax, ymin, ymax)
     = {| minX := PrimFloat.sub xmin 31; minY := PrimFloat.sub ymin 31;
          maxX := PrimFloat.add xmax 31; maxY := PrimFloat.add ymax 31 |})
  /\ inflate (100, 200, 100, 200)%float
     = {| minX := 69; minY := 69; maxX := 231; maxY := 231 |}
  /\ forall E o c,
       In c (clips (snd (main E o))) ->
       exists ext,
         getShapefileExtent E (mask_subset o) = Some ext
         /\ box c = inflate ext.
Proof.
  split; [reflexivity|]. split; [reflexivity|].
  intros E o c.
  destruct (main_cases E o) as [-> | (ext & Hext & ->)].
  - cbn [snd clips]. intros [].
  - intros Hin. exists ext. split; [assumption|].
    pose proof (driver_loop_box E o (inflate ext)
                  (split_by_commas (datasets o))
                  (sort (listFilesInDirectory E (input_dir o)))
                  {| cur_crs := source_crs o; clips := [] |}
                  (Forall_nil _)) as Hall.
    rewrite Forall_forall in Hall. apply Hall.
    destruct (driver_loop E o (inflate ext) _ _ _); exact Hin.
Qed.

(** C9, on the sample run: the mask extent (100,100)-(200,200) reaches the
    clip primitive as (69,69)-(231,231). *)
Lemma bbox_inflated_once_witness :
  exists ext,
    getShapefileExtent sample_env (mask_subset sample_options) = Some ext
    /\ {| minX := 69; minY := 69; maxX := 231; maxY := 231 |} = inflate ext.
Proof.
  refine (proj2 (proj2 bbox_inflated_once) sample_env sample_options
            (clip_call sample_options sample_box scene_47_B4
               (str "EPSG:32612")) _).
  vm_compute. left. reflexivity.
Defined.

(* ================================================================== *)
(** * The source CRS across the loop *)

(** C10. A resolution step that changes the source CRS sets it to
    ["EPSG:"] followed by the decimal string of [32600 + zone] for a zone
    in [1, 60], never to a Southern-hemisphere string; and in every run the
    final source CRS is the configured one or such a Northern string, and
    every clip call carries the code of the configured source CRS or a code
    [32600 + zone]. *)
Theorem metadata_override_northern :
  (forall E o fname crs crs',
     resolve_crs E o fname crs = Ret crs' -> crs' <> crs ->
     northern crs'
     /\ forall z, 1 <= z <= 60 -> crs' <> getEPSGFromUTMZone z true)
  /\ (forall E o,
        (cur_crs (snd (main E o)) = source_crs o
         \/ northern (cur_crs (snd (main E o))))
        /\ Forall (fun c => configured_or_northern o (epsgCode c))
                  (clips (snd (main E o)))).
Proof.
  split.
  - intros E o fname crs crs' Hr Hne.
    apply resolve_crs_northern in Hr as [-> | Hn]; [contradiction|].
    split; [assumption|]. intros z Hz. now apply northern_not_southern.
  - intros E o.
    destruct (main_cases E o) as [-> | (ext & _ & ->)].
    + cbn [snd cur_crs clips]. split; [now left | constructor].
    + pose proof (driver_loop_invariant E o (inflate ext) _ _
                    (process_file_crs_invariant E o (inflate ext))
                    (split_by_commas (datasets o))
                    (sort (listFilesInDirectory E (input_dir o)))
                    {| cur_crs := source_crs o; clips := [] |}) as Hinv.
      assert (H0 : crs_invariant o {| cur_crs := source_crs o; clips := [] |})
        by (split; [now left | constructor]).
      specialize (Hinv H0).
      destruct (driver_loop E o (inflate ext) _ _ _); exact Hinv.
Qed.

(** C10, on the sample run: zone 12 in the metadata overrides the
    configured ["EPSG:32615"] with a Northern-hemisphere string. *)
Lemma metadata_override_northern_witness :
  northern (str "EPSG:32612")
  /\ forall z, 1 <= z <= 60 -> str "EPSG:32612" <> getEPSGFromUTMZone z true.
Proof.
  refine (proj1 metadata_override_northern sample_env sample_options
            scene_47_B4 (str "EPSG:32615") (str "EPSG:32612") _ _).
  - vm_compute. reflexivity.
  - discriminate.
Defined.



(** The end-to-end scenario of the specification: the mask box
    (100,100)-(200,200) and a scene with metadata zone 12 under the
    configured CRS ["EPSG:32615"]. *)
Example sample_run :
  main sample_env sample_options =
  (Exited EXIT_SUCCESS,
   {| cur_crs := str "EPSG:32612";
      clips :=
        [ {| inFile := str "in/" ++ scene_47_B4;
             outFile := str "outLC08_L2SP_021047_20250923_20251001_02_T1_SR_B4_clip.tif";
             box := {| minX := 69; minY := 69; maxX := 231; maxY := 231 |};
             epsgCode := 32612 |};
          {| inFile := str "in/" ++ scene_48_B4;
             outFile := str "outLC08_L2SP_021048_20250923_20251001_02_T1_SR_B4_clip.tif";
             box := {| minX := 69; minY := 69; maxX := 231; maxY := 231 |};
             epsgCode := 32612 |} ] |}).
Proof. vm_compute. reflexivity. Qed.

(* ================================================================== *)
(** * Metadata extraction: what it returns and when it throws *)

Lemma extractProjectionInfo_unopened (projection : cstring) (utmZone : Z) :
  extractProjectionInfo None projection utmZone
  = Ret (false, projection, utmZone).
Proof. reflexivity. Qed.

(** When the function returns, the flag says whether both fields are
    set. *)
Lemma extractProjectionInfo_flag (file : option cstring)
    (found : bool) (projection : cstring) (utmZone : Z) :
  extractProjectionInfo file [] 0 = Ret (found, projection, utmZone) ->
  (found = true <-> projection <> [] /\ utmZone <> 0).
Proof.
  destruct file as [content|]; cbn [extractProjectionInfo].
  - destruct (scan_lines _ _) as [[p z]|e];
      cbn [bind fst snd]; [|discriminate].
    intros [= <- <- <-]. unfold both_found.
    cbn [fst snd]. rewrite andb_true_iff, !negb_true_iff, Z.eqb_neq.
    destruct p; simpl; intuition congruence.
  - intros [= <- <- <-]. intuition congruence.
Qed.

Example extract_both_fields :
  extractProjectionInfo
    (Some (str "  MAP_PROJECTION = " ++ [dquote] ++ str "UTM" ++ [dquote] ++ nl
           ++ str "UTM_ZONE = 15" ++ nl)) [] 0
  = Ret (true, str "UTM", 15).
Proof. reflexivity. Qed.

Example extract_missing_projection :
  extractProjectionInfo (Some (str "UTM_ZONE = 15" ++ nl)) [] 0
  = Ret (false, [], 15).
Proof. reflexivity. Qed.

(** C2, where the code departs from it.  A metadata file whose
    [UTM_ZONE] line has no number after the ['='] makes [std::stoi] throw
    [std::invalid_argument]; [extractProjectionInfo] does not catch it and
    neither does [main], so the run is terminated instead of falling back
    to the source CRS.  A blank line before the fields are found does the
    same through [std::string::substr] ([std::out_of_range]). *)
Theorem metadata_malformed_zone_terminates :
  extractProjectionInfo (Some (str "UTM_ZONE = abc" ++ nl)) [] 0
  = Throw invalid_argument
  /\ main (env_with_metadata (str "UTM_ZONE = abc" ++ nl)) sample_options
     = (Terminated invalid_argument, sample_state)
  /\ extractProjectionInfo (Some (nl ++ str "UTM_ZONE = 12" ++ nl)) [] 0
     = Throw out_of_range.
Proof. repeat split; vm_compute; reflexivity. Qed.

(* ================================================================== *)
(** * The file names of a clip call *)

Lemma make_inFile_join (o : Options) (file_parts : PathParts) :
  make_inFile o file_parts
  = join_path (input_dir o) (stem file_parts ++ extension file_parts).
Proof.
  unfold make_inFile, join_path.
  destruct (Ascii.eqb (back (input_dir o)) "/"); cbn [negb];
    now rewrite <- ?app_assoc.
Qed.

(** The separator of the output path follows the input directory. *)
Lemma make_outFile_input_keyed (o : Options) (file_parts : PathParts) :
  make_outFile o file_parts
  = if Ascii.eqb (back (input_dir o)) "/"
    then output_dir o ++ stem file_parts ++ label o ++ extension file_parts
    else output_dir o ++ str "/" ++ stem file_parts ++ label o
           ++ extension file_parts.
Proof.
  unfold make_outFile.
  destruct (Ascii.eqb (back (input_dir o)) "/"); reflexivity.
Qed.

(** C1, where the code departs from it.  With the input directory ["in/"]
    and the output directory ["out"], the output path gets no separator:
    the test before the output path looks at the input directory again.
    The input path is joined as the claim says. *)
Theorem outFile_separator_keyed_on_input_dir :
  let parts := splitPath scene_47_B4 in
  make_inFile sample_options parts = str "in/" ++ scene_47_B4
  /\ make_outFile sample_options parts
     = str "outLC08_L2SP_021047_20250923_20251001_02_T1_SR_B4_clip.tif"
  /\ join_path (output_dir sample_options)
       (stem parts ++ label sample_options ++ extension parts)
     = str "out/LC08_L2SP_021047_20250923_20251001_02_T1_SR_B4_clip.tif"
  /\ make_outFile sample_options parts
     <> join_path (output_dir sample_options)
          (stem parts ++ label sample_options ++ extension parts).
Proof. repeat split; vm_compute; try reflexivity; discriminate. Qed.

(* ================================================================== *)
(** * More on split_by_commas *)

Lemma split_by_commas_fields (input : cstring) :
  split_by_commas input = filter nonempty (fields input).
Proof.
  unfold split_by_commas.
  etransitivity; [exact (split_loop input [] [])|]. cbn [app].
  pose proof (fields_not_nil input).
  destruct (fields input); [contradiction | reflexivity].
Qed.

Lemma fields_app_comma (a b : cstring) :
  fields (a ++ ","%char :: b) = fields a ++ fields b.
Proof.
  induction a as [|c a IH]; [reflexivity|].
  cbn [app fields]. rewrite IH.
  destruct (Ascii.eqb c ","); [reflexivity|].
  pose proof (fields_not_nil a).
  destruct (fields a); [contradiction | reflexivity].
Qed.

Lemma fields_no_comma_one (f : cstring) : no_comma f -> fields f = [f].
Proof.
  induction 1 as [|c f Hc _ IH]; [reflexivity|].
  cbn [fields]. apply Ascii.eqb_neq in Hc. now rewrite Hc, IH.
Qed.

Lemma fields_join (l : list cstring) :
  l <> [] -> Forall no_comma l -> fields (join_commas l) = l.
Proof.
  induction l as [|f l IH]; [contradiction|]. intros _ H.
  inversion H as [|? ? Hf Hl]; subst.
  destruct l as [|g l].
  - cbn [join_commas]. now apply fields_no_comma_one.
  - change (join_commas (f :: g :: l))
      with (f ++ ","%char :: join_commas (g :: l)).
    rewrite fields_app_comma, fields_no_comma_one by assumption.
    rewrite IH by (discriminate || assumption). reflexivity.
Qed.

(** X1. Every token is non-empty and holds no comma. *)
Theorem split_by_commas_token_shape (input : cstring) :
  Forall (fun token => token <> [] /\ no_comma token) (split_by_commas input).
Proof.
  rewrite split_by_commas_fields. apply Forall_forall. intros t Ht.
  apply filter_In in Ht as [Hin Hne]. split.
  - intros ->. discriminate.
  - pose proof (fields_no_comma input) as H.
    rewrite Forall_forall in H. now apply H.
Qed.

(** X2. Splitting distributes over a comma: the tokens of [a,b] are those of
    [a] followed by those of [b]. *)
Theorem split_by_commas_app (a b : cstring) :
  split_by_commas (a ++ ","%char :: b)
  = split_by_commas a ++ split_by_commas b.
Proof.
  rewrite !split_by_commas_fields, fields_app_comma. apply filter_app.
Qed.

(** X3. Round trip: a list of non-empty comma-free tokens written with commas
    between them is read back unchanged. *)
Theorem split_by_commas_join (tokens : list cstring) :
  Forall (fun token => token <> [] /\ no_comma token) tokens ->
  split_by_commas (join_commas tokens) = tokens.
Proof.
  intros H. rewrite split_by_commas_fields.
  destruct tokens as [|t ts]; [reflexivity|].
  rewrite fields_join.
  - apply forallb_filter_id. apply forallb_forall. intros x Hx.
    rewrite Forall_forall in H. destruct (H x Hx) as [Hne _].
    destruct x; [contradiction | reflexivity].
  - discriminate.
  - eapply Forall_impl; [|exact H]. now intros x [_ Hx].
Qed.

Lemma split_by_commas_join_witness :
  split_by_commas (join_commas [str "B4"; str "B5"; str "QA_PIXEL"])
  = [str "B4"; str "B5"; str "QA_PIXEL"].
Proof.
  apply split_by_commas_join.
  repeat constructor; try discriminate;
    intros H; discriminate H.
Defined.

Lemma join_empty_fields (l : list cstring) :
  Forall (fun f => f = []) l -> Forall (fun c => c = ","%char) (join_commas l).
Proof.
  induction 1 as [|f l -> _ IH]; [constructor|].
  destruct l as [|g l]; [constructor|].
  change (join_commas ([] :: g :: l)) with (","%char :: join_commas (g :: l)).
  constructor; [reflexivity | exact IH].
Qed.

(** X4. The result is empty exactly when the input holds nothing but commas
    (the empty string included): the case in which [main] reports that no
    dataset was given. *)
Theorem split_by_commas_nil (input : cstring) :
  split_by_commas input = [] <-> Forall (fun c => c = ","%char) input.
Proof.
  rewrite split_by_commas_fields. split.
  - intros H. rewrite <- (join_fields input). apply join_empty_fields.
    apply Forall_forall. intros f Hf.
    destruct f as [|c f]; [reflexivity|]. exfalso.
    assert (Hin : In (c :: f) (filter nonempty (fields input)))
      by (apply filter_In; split; [assumption | reflexivity]).
    rewrite H in Hin. exact Hin.
  - induction 1 as [|c t -> _ IH]; [reflexivity|].
    cbn [fields]. rewrite Ascii.eqb_refl. cbn [filter nonempty empty negb].
    exact IH.
Qed.

(* ================================================================== *)
(** * Prefixes, suffixes and substrings: ends_with and find_pattern *)

Lemma starts_with_iff (p s : cstring) :
  starts_with p s = true <-> exists post, s = p ++ post.
Proof.
  revert s; induction p as [|a p IH]; intros s.
  - split; [intros _; now exists s | reflexivity].
  - destruct s as [|b s]; cbn [starts_with].
    + split; [discriminate | intros [post H]; discriminate].
    + rewrite andb_true_iff, Ascii.eqb_eq, IH. split.
      * intros [-> [post ->]]. now exists post.
      * intros [post H]. inversion H; subst. split; [reflexivity|].
        now exists post.
Qed.

Lemma index_of_Some (p s : cstring) (i : nat) :
  index_of p s = Some i ->
  exists pre post, s = pre ++ p ++ post /\ List.length pre = i.
Proof.
  revert i; induction s as [|c t IH]; intros i; cbn [index_of].
  - destruct (starts_with p []) eqn:Hp; [|discriminate]. intros [= <-].
    apply starts_with_iff in Hp as [post Hp]. now exists [], post.
  - destruct (starts_with p (c :: t)) eqn:Hp.
    + intros [= <-]. apply starts_with_iff in Hp as [post Hp].
      now exists [], post.
    + destruct (index_of p t) as [j|]; [|discriminate]. intros [= <-].
      destruct (IH j eq_refl) as (pre & post & -> & Hl).
      exists (c :: pre), post. simpl. auto.
Qed.

Lemma index_of_None (p s : cstring) :
  index_of p s = None -> ~ occurs p s.
Proof.
  induction s as [|c t IH]; cbn [index_of].
  - destruct (starts_with p []) eqn:Hp; [discriminate|]. intros _ (pre & post & H).
    destruct pre; [|discriminate]. 
    assert (Ht : starts_with p [] = true)
      by (apply starts_with_iff; now exists post).
    congruence.
  - destruct (starts_with p (c :: t)) eqn:Hp; [discriminate|].
    destruct (index_of p t) as [j|] eqn:Hj; [discriminate|].
    intros _ (pre & post & H). destruct pre as [|x pre].
    + assert (Ht : starts_with p (c :: t) = true)
        by (apply starts_with_iff; now exists post).
      congruence.
    + inversion H; subst. apply IH; [reflexivity|]. now exists pre, post.
Qed.

Lemma index_of_occurs (p s : cstring) :
  occurs p s ->
  exists i, index_of p s = Some i /\ (i <= List.length s)%nat.
Proof.
  intros Hocc. destruct (index_of p s) as [i|] eqn:Hi.
  - exists i. split; [reflexivity|].
    apply index_of_Some in Hi as (pre & post & -> & <-).
    rewrite length_app. lia.
  - now apply index_of_None in Hi.
Qed.

(** X5. [find_pattern] finds exactly the substrings: a [true] result means the
    pattern occurs in the name, and a pattern that occurs is found (the
    size of a [std::string] is below [npos]).  The empty pattern occurs in
    every name. *)
Theorem find_pattern_occurs (filename pattern : cstring) :
  (find_pattern filename pattern = true -> occurs pattern filename)
  /\ (size filename < npos ->
      occurs pattern filename -> find_pattern filename pattern = true)
  /\ (size filename < npos -> find_pattern filename [] = true).
Proof.
  unfold find_pattern, find.
  assert (Hfound : size filename < npos -> forall p,
            occurs p filename ->
            negb (pos_of (index_of p filename) =? npos) = true).
  { intros Hsize p Hocc.
    apply index_of_occurs in Hocc as (i & -> & Hi). cbn [pos_of].
    apply negb_true_iff, Z.eqb_neq. unfold size in Hsize. lia. }
  split; [|split].
  - destruct (index_of pattern filename) as [i|] eqn:Hi.
    + intros _. apply index_of_Some in Hi as (pre & post & -> & _).
      now exists pre, post.
    + cbn [pos_of]. rewrite Z.eqb_refl. discriminate.
  - intros Hsize. now apply Hfound.
  - intros Hsize. apply Hfound; [assumption|]. now exists [], filename.
Qed.

Lemma find_pattern_occurs_witness :
  find_pattern scene_47_B4 (str "_B4") = true.
Proof.
  refine (proj1 (proj2 (find_pattern_occurs scene_47_B4 (str "_B4"))) _ _).
  - vm_compute. reflexivity.
  - exists (str "LC08_L2SP_021047_20250923_20251001_02_T1_SR"), (str ".tif").
    reflexivity.
Defined.

Lemma ends_with_spec (s suffix : cstring) :
  ends_with s suffix = true <-> exists pre, s = pre ++ suffix.
Proof.
  unfold ends_with, size. split.
  - destruct (Z.of_nat (List.length s) <? Z.of_nat (List.length suffix));
      [discriminate|].
    intros H. apply starts_with_iff in H as [post H].
    exists (rev post).
    rewrite <- (rev_involutive s), H, rev_app_distr, rev_involutive.
    reflexivity.
  - intros [pre ->]. rewrite length_app.
    replace (Z.of_nat (List.length pre + List.length suffix)
             <? Z.of_nat (List.length suffix)) with false
      by (symmetry; apply Z.ltb_ge; lia).
    apply starts_with_iff. exists (rev pre). apply rev_app_distr.
Qed.

(** X6. [ends_with] holds exactly when the string is something followed by
    the suffix; a suffix longer than the string is never matched. *)
Theorem ends_with_iff (s suffix : cstring) :
  ends_with s suffix = true <-> exists pre, s = pre ++ suffix.
Proof. exact (ends_with_spec s suffix). Qed.

(* ================================================================== *)
(** * More on splitPath *)

Lemma drop_app (pre s : cstring) :
  drop (Z.of_nat (List.length pre)) (pre ++ s) = s.
Proof.
  induction pre as [|x pre IH].
  - apply drop_nonpos. simpl. lia.
  - cbn [List.length app drop].
    replace (Z.of_nat (S (List.length pre)) <=? 0) with false
      by (symmetry; apply Z.leb_gt; lia).
    replace (Z.of_nat (S (List.length pre)) - 1)
      with (Z.of_nat (List.length pre)) by lia.
    exact IH.
Qed.

Lemma one_of_dot (c : ascii) : one_of (str ".") c = true <-> c = "."%char.
Proof.
  unfold one_of; simpl. rewrite orb_false_r. apply Ascii.eqb_eq.
Qed.

Lemma cut_extension_shape (base : cstring) :
  snd (cut_extension base) = []
  \/ exists e, snd (cut_extension base) = "."%char :: e
               /\ Forall (fun c => c <> "."%char) e.
Proof.
  unfold cut_extension, find_last_of.
  destruct (index_last (one_of (str ".")) base) as [i|] eqn:Hi.
  - cbn [pos_of]. destruct (Z.of_nat i =? npos); [now left|].
    right. apply index_last_Some in Hi.
    destruct Hi as (pre & c & post & -> & <- & Hc & Hp).
    cbn [snd]. rewrite drop_app. apply one_of_dot in Hc. subst c.
    exists post. split; [reflexivity|].
    apply forallb_not_one_of in Hp.
    eapply Forall_impl; [|exact Hp]. intros x Hx Hd.
    apply one_of_dot in Hd. congruence.
  - left. cbn [pos_of]. now rewrite Z.eqb_refl.
Qed.

(** X7. The extension is empty or a dot followed by characters none of which
    is a dot: of several dots in the basename only the last one starts the
    extension. *)
Theorem splitPath_extension_shape (path : cstring) :
  extension (splitPath path) = []
  \/ exists e, extension (splitPath path) = "."%char :: e
               /\ Forall (fun c => c <> "."%char) e.
Proof.
  rewrite splitPath_cuts. cbn [extension]. apply cut_extension_shape.
Qed.

Lemma cut_directory_plain (fname : cstring) :
  Forall (fun c => ~ is_separator c) fname ->
  cut_directory fname = ([], fname).
Proof.
  intros H. unfold cut_directory, find_last_of.
  replace (index_last (one_of (str "/\")) fname) with (@None nat);
    [reflexivity|].
  symmetry. apply index_last_None, forallb_not_one_of.
  eapply Forall_impl; [|exact H]. intros c Hc.
  destruct (one_of (str "/\") c) eqn:Ho; [|reflexivity].
  apply one_of_separators in Ho. contradiction.
Qed.

(** X8. A file name without a separator, as a directory listing gives it, is
    its own basename, and the input path of its clip call is the input
    directory joined with the name. *)
Theorem splitPath_plain_name (fname : cstring) :
  Forall (fun c => ~ is_separator c) fname ->
  directory (splitPath fname) = []
  /\ basename (splitPath fname) = fname
  /\ forall o, make_inFile o (splitPath fname) = join_path (input_dir o) fname.
Proof.
  intros H. rewrite splitPath_cuts. cbn [directory basename].
  rewrite (cut_directory_plain fname H). cbn [fst snd].
  repeat split. intros o. rewrite make_inFile_join. cbn [stem extension].
  now rewrite cut_extension_app.
Qed.

Lemma splitPath_plain_name_witness :
  make_inFile sample_options (splitPath scene_47_B4)
  = join_path (str "in/") scene_47_B4.
Proof.
  refine (proj2 (proj2 (splitPath_plain_name scene_47_B4 _)) sample_options).
  unfold is_separator, scene_47_B4.
  repeat (constructor; [intros [H|H]; discriminate H|]). constructor.
Defined.

(* ================================================================== *)
(** * locateMetadataFile *)

Lemma locateMetadataFile_cases (E : Env) (dirPath tifFilename : cstring) :
  let candidate := join_path dirPath (take 40 tifFilename ++ str "_MTL.txt") in
  locateMetadataFile E dirPath tifFilename
  = if fileExists E candidate then candidate else [].
Proof.
  cbv zeta. unfold locateMetadataFile, join_path.
  destruct (Ascii.eqb (back dirPath) "/"); cbn [negb];
    rewrite <- ?app_assoc;
    match goal with |- context [fileExists E ?f] =>
      destruct (fileExists E f) end; reflexivity.
Qed.

(** X9. A non-empty result of [locateMetadataFile] is a file that can be
    opened, lies under the directory and is named by the suffix
    ["_MTL.txt"]. *)
Theorem locateMetadataFile_found (E : Env) (dirPath tifFilename : cstring) :
  locateMetadataFile E dirPath tifFilename <> [] ->
  fileExists E (locateMetadataFile E dirPath tifFilename) = true
  /\ starts_with dirPath (locateMetadataFile E dirPath tifFilename) = true
  /\ ends_with (locateMetadataFile E dirPath tifFilename) (str "_MTL.txt")
     = true.
Proof.
  rewrite locateMetadataFile_cases. cbv zeta.
  destruct (fileExists E _) eqn:Hex; [|contradiction]. intros _.
  split; [exact Hex|]. unfold join_path. split.
  - apply starts_with_iff.
    destruct (Ascii.eqb (back dirPath) "/"); eexists; reflexivity.
  - apply ends_with_spec.
    destruct (Ascii.eqb (back dirPath) "/").
    + exists (dirPath ++ take 40 tifFilename). now rewrite <- app_assoc.
    + exists (dirPath ++ str "/" ++ take 40 tifFilename).
      now rewrite <- !app_assoc.
Qed.

Lemma locateMetadataFile_found_witness :
  fileExists sample_env
    (locateMetadataFile sample_env (str "in/") scene_47_B4) = true.
Proof.
  refine (proj1 (locateMetadataFile_found sample_env (str "in/")
                   scene_47_B4 _)).
  vm_compute. discriminate.
Defined.

(** X10. Two file names that agree on their first 40 characters have the same
    metadata file, and the resolution of the source CRS treats them
    alike: the bands of one scene get one CRS. *)
Theorem same_prefix_same_metadata (E : Env) (o : Options)
    (name1 name2 : cstring) :
  take 40 name1 = take 40 name2 ->
  locateMetadataFile E (input_dir o) name1
  = locateMetadataFile E (input_dir o) name2
  /\ forall crs, resolve_crs E o name1 crs = resolve_crs E o name2 crs.
Proof.
  intros H.
  assert (Hl : locateMetadataFile E (input_dir o) name1
               = locateMetadataFile E (input_dir o) name2)
    by (unfold locateMetadataFile; now rewrite H).
  split; [exact Hl|]. intros crs. unfold resolve_crs. now rewrite Hl.
Qed.

Lemma same_prefix_same_metadata_witness :
  resolve_crs sample_env sample_options scene_47_B4 (str "EPSG:32615")
  = resolve_crs sample_env sample_options
      (str "LC08_L2SP_021047_20250923_20251001_02_T1_SR_B5.tif")
      (str "EPSG:32615").
Proof.
  refine (proj2 (same_prefix_same_metadata sample_env sample_options
                   scene_47_B4
                   (str "LC08_L2SP_021047_20250923_20251001_02_T1_SR_B5.tif")
                   _) (str "EPSG:32615")).
  reflexivity.
Defined.

(* ================================================================== *)
(** * string_to_int *)

Lemma skip_digits_app (ds t : cstring) :
  forallb is_digit ds = true -> no_digit_head t -> skip_digits (ds ++ t) = t.
Proof.
  intros Hds Ht. induction ds as [|c ds IH].
  - destruct t as [|x t]; [reflexivity|]. simpl in *. now rewrite Ht.
  - simpl in Hds. apply andb_true_iff in Hds as [Hc Hds].
    simpl. rewrite Hc. now apply IH.
Qed.

Lemma stoi_range (s : cstring) (v : Z) :
  stoi s = Ret v -> int_min <= v <= int_max.
Proof.
  unfold stoi.
  destruct (match skip_spaces s with
            | [] => (false, skip_spaces s)
            | c :: t =>
                if Ascii.eqb c "-" then (true, t)
                else if Ascii.eqb c "+" then (false, t)
                else (false, skip_spaces s)
            end) as [neg s2].
  destruct s2 as [|c s2]; [discriminate|].
  destruct (is_digit c); [|discriminate].
  match goal with
  | |- context [(int_min <=? ?x) && (?x <=? int_max)] =>
      destruct ((int_min <=? x) && (x <=? int_max)) eqn:Hr
  end; [|discriminate].
  intros [= <-]. apply andb_true_iff in Hr as [H1 H2].
  apply Z.leb_le in H1, H2. split; assumption.
Qed.

(** [std::stoi] on a minus sign and a numeral. *)
Lemma stoi_negative (ds t : cstring) :
  ds <> [] -> forallb is_digit ds = true -> no_digit_head t ->
  int_min <= - numeral_value ds ->
  stoi ("-"%char :: ds ++ t) = Ret (- numeral_value ds).
Proof.
  intros Hne Hds Ht Hmin.
  destruct ds as [|c ds]; [contradiction|].
  pose proof Hds as Hall. simpl in Hds. apply andb_true_iff in Hds as [Hc _].
  unfold stoi. cbn [skip_spaces].
  change (is_space "-") with false. cbv iota.
  change (Ascii.eqb "-" "-") with true. cbv iota. cbn [app]. rewrite Hc.
  change (c :: ds ++ t) with ((c :: ds) ++ t).
  rewrite (digits_value_app _ _ Hall Ht 0), <- numeral_value_fold.
  pose proof (numeral_fold_nonneg _ Hall 0 (Z.le_refl 0)) as Hpos.
  rewrite <- numeral_value_fold in Hpos.
  replace (int_min <=? - numeral_value (c :: ds)) with true
    by (symmetry; now apply Z.leb_le).
  replace (- numeral_value (c :: ds) <=? int_max) with true
    by (symmetry; apply Z.leb_le; unfold int_max; lia).
  reflexivity.
Qed.

Lemma to_digits_numeral (n : Z) :
  0 <= n ->
  let ds := to_digits (S (Z.to_nat (Z.log2 n))) n in
  ds <> [] /\ forallb is_digit ds = true /\ numeral_value ds = n.
Proof.
  intros Hn. pose proof (to_string_numeral n Hn) as H.
  unfold to_string in H.
  replace (n <? 0) with false in H by (symmetry; apply Z.ltb_ge; lia).
  exact H.
Qed.

(** [std::stoi] reads back all of what [std::to_string] writes for an
    [int], negative or not, and stops at its end. *)
Lemma stoi_to_string_int (n : Z) :
  int_min <= n <= int_max ->
  stoi (to_string n) = Ret n /\ stoi_end (to_string n) = size (to_string n).
Proof.
  intros [Hmin Hmax]. destruct (Z.ltb_spec n 0) as [Hneg|Hpos].
  - assert (Hm : 0 <= - n) by lia.
    destruct (to_digits_numeral (- n) Hm) as (Hne & Hall & Hv).
    unfold to_string.
    replace (n <? 0) with true by (symmetry; apply Z.ltb_lt; lia).
    set (ds := to_digits (S (Z.to_nat (Z.log2 (- n)))) (- n)) in *.
    split.
    + rewrite <- (app_nil_r ds), stoi_negative; rewrite ?Hv; simpl; auto.
      * f_equal. lia.
      * lia.
    + unfold stoi_end. cbn [skip_spaces]. change (is_space "-") with false.
      cbn [skip_sign]. change (Ascii.eqb "-" "-") with true. cbv iota.
      rewrite <- (app_nil_r ds), skip_digits_app by (simpl; auto).
      unfold size. simpl. lia.
  - destruct (to_string_numeral n Hpos) as (Hne & Hall & Hv). split.
    + rewrite <- (app_nil_r (to_string n)). apply stoi_to_string; simpl; auto.
    + unfold stoi_end.
      destruct (to_string n) as [|c ds] eqn:Hs; [contradiction|].
      pose proof Hall as Hall'. simpl in Hall'.
      apply andb_true_iff in Hall' as [Hc _].
      cbn [skip_spaces]. rewrite (is_digit_not_space c Hc).
      cbn [skip_sign]. destruct (is_digit_not_sign c Hc) as [-> ->].
      rewrite <- (app_nil_r (c :: ds)), skip_digits_app by (simpl; auto).
      unfold size. simpl. lia.
Qed.

Lemma string_to_int_loop_to_string (ns : list Z) :
  Forall (fun n => int_min <= n <= int_max) ns ->
  forall numbers,
    string_to_int_loop (map to_string ns) numbers = numbers ++ ns.
Proof.
  induction 1 as [|n ns Hn _ IH]; intros numbers;
    cbn [map string_to_int_loop]; [now rewrite app_nil_r|].
  destruct (stoi_to_string_int n Hn) as [-> ->].
  rewrite Z.eqb_refl. cbn [negb]. rewrite IH, <- app_assoc. reflexivity.
Qed.

(** X11. Round trip: the decimal strings of a list of [int] values are
    converted back to that list. *)
Theorem string_to_int_to_string (ns : list Z) :
  Forall (fun n => int_min <= n <= int_max) ns ->
  string_to_int (map to_string ns) = ns.
Proof. intros H. exact (string_to_int_loop_to_string ns H []). Qed.

Lemma string_to_int_to_string_witness :
  string_to_int (map to_string [4; -17; 0; 2147483647; -2147483648])
  = [4; -17; 0; 2147483647; -2147483648].
Proof.
  apply string_to_int_to_string.
  repeat constructor; vm_compute; discriminate.
Defined.

(** X12. All or nothing: one string that [std::stoi] rejects, or converts only
    in part, empties the whole result, wherever it stands in the list. *)
Theorem string_to_int_rejects (strings : list cstring) (s : cstring) :
  In s strings -> not_an_int s -> string_to_int strings = [].
Proof.
  intros Hin Hbad. unfold string_to_int.
  enough (H : forall numbers, string_to_int_loop strings numbers = [])
    by apply H.
  induction strings as [|s0 rest IH]; [contradiction|]. intros numbers.
  cbn [string_to_int_loop]. destruct Hin as [-> | Hin].
  - destruct Hbad as [[e ->] | Hend]; [reflexivity|].
    destruct (stoi s); [|reflexivity].
    apply Z.eqb_neq in Hend. now rewrite Hend.
  - destruct (stoi s0); [|reflexivity].
    destruct (negb (stoi_end s0 =? size s0)); [reflexivity|]. now apply IH.
Qed.

Lemma string_to_int_rejects_witness :
  string_to_int [str "4"; str "5x"; str "6"] = [].
Proof.
  apply (string_to_int_rejects _ (str "5x")).
  - right. left. reflexivity.
  - right. vm_compute. discriminate.
Defined.

Lemma string_to_int_loop_cases (strings : list cstring) :
  forall numbers,
    string_to_int_loop strings numbers = []
    \/ exists ns,
         string_to_int_loop strings numbers = numbers ++ ns
         /\ Forall2 (fun s n => stoi s = Ret n /\ stoi_end s = size s)
                    strings ns.
Proof.
  induction strings as [|s rest IH]; intros numbers; cbn [string_to_int_loop].
  - right. exists []. split; [now rewrite app_nil_r | constructor].
  - destruct (stoi s) as [v|e] eqn:Hs; [|now left].
    destruct (stoi_end s =? size s) eqn:He; cbn [negb]; [|now left].
    apply Z.eqb_eq in He.
    destruct (IH (numbers ++ [v])) as [H | (ns & H & Hall)]; [now left|].
    right. exists (v :: ns). split.
    + now rewrite H, <- app_assoc.
    + constructor; auto.
Qed.

(** X13. A non-empty result has one number per string, each the value
    [std::stoi] gives for the whole of its string. *)
Theorem string_to_int_values (strings : list cstring) :
  string_to_int strings <> [] ->
  Forall2 (fun s n => stoi s = Ret n /\ stoi_end s = size s)
          strings (string_to_int strings).
Proof.
  unfold string_to_int.
  destruct (string_to_int_loop_cases strings []) as [-> | (ns & -> & H)];
    [contradiction | intros _; exact H].
Qed.

Lemma string_to_int_values_witness :
  Forall2 (fun s n => stoi s = Ret n /\ stoi_end s = size s)
          [str "4"; str " -5"] (string_to_int [str "4"; str " -5"]).
Proof.
  apply string_to_int_values. vm_compute. discriminate.
Defined.

(* ================================================================== *)
(** * More on parseEPSG and getEPSGFromUTMZone *)

Lemma stoi_overflow (ds t : cstring) :
  ds <> [] -> forallb is_digit ds = true -> no_digit_head t ->
  int_max < numeral_value ds ->
  stoi (ds ++ t) = Throw out_of_range.
Proof.
  intros Hne Hds Ht Hmax.
  destruct ds as [|c ds]; [contradiction|].
  pose proof Hds as Hall. simpl in Hds. apply andb_true_iff in Hds as [Hc _].
  pose proof (is_digit_not_space c Hc) as Hsp.
  destruct (is_digit_not_sign c Hc) as [Hm Hp].
  unfold stoi. cbn [app skip_spaces]. rewrite Hsp, Hm, Hp, Hc.
  change (c :: ds ++ t) with ((c :: ds) ++ t).
  rewrite (digits_value_app _ _ Hall Ht 0), <- numeral_value_fold.
  replace (numeral_value (c :: ds) <=? int_max) with false
    by (symmetry; now apply Z.leb_gt).
  now rewrite andb_false_r.
Qed.

(** X14. The result of [parseEPSG] always fits an [int], and a code too large
    for an [int] is a failure, not a wrapped value. *)
Theorem parseEPSG_bounds :
  (forall s, int_min <= parseEPSG s <= int_max)
  /\ (forall ds t,
        ds <> [] -> forallb is_digit ds = true -> no_digit_head t ->
        int_max < numeral_value ds ->
        parseEPSG (str "EPSG:" ++ ds ++ t) = -1).
Proof.
  split.
  - intros s. unfold parseEPSG.
    assert (Hm : int_min <= -1 <= int_max) by (unfold int_min, int_max; lia).
    destruct (negb (starts_with (str "EPSG:") s)); [exact Hm|].
    destruct (substr_from s (size (str "EPSG:"))) as [rest|e];
      cbn [bind]; [|exact Hm].
    destruct (stoi rest) as [n|e] eqn:Hs; [|exact Hm].
    now apply stoi_range in Hs.
  - intros ds t Hne Hds Ht Hmax.
    now rewrite parseEPSG_prefix, stoi_overflow.
Qed.

Lemma parseEPSG_bounds_witness :
  parseEPSG (str "EPSG:" ++ str "4294999911" ++ []) = -1.
Proof.
  apply (proj2 parseEPSG_bounds).
  - discriminate.
  - reflexivity.
  - exact I.
  - vm_compute. reflexivity.
Defined.

(** X15. Distinct zones or hemispheres never share an EPSG string. *)
Theorem getEPSGFromUTMZone_injective (zone1 zone2 : Z) (south1 south2 : bool) :
  1 <= zone1 <= 60 -> 1 <= zone2 <= 60 ->
  getEPSGFromUTMZone zone1 south1 = getEPSGFromUTMZone zone2 south2 ->
  zone1 = zone2 /\ south1 = south2.
Proof.
  intros H1 H2 Heq. apply (f_equal parseEPSG) in Heq.
  rewrite !parseEPSG_getEPSGFromUTMZone in Heq by assumption.
  destruct south1, south2; cbv iota in Heq;
    (split; [lia | first [reflexivity | exfalso; lia]]).
Qed.

Lemma getEPSGFromUTMZone_injective_witness :
  15 = 15 /\ true = true.
Proof.
  apply (getEPSGFromUTMZone_injective 15 15 true true); try lia.
  reflexivity.
Defined.

(* ================================================================== *)
(** * stripString *)

Lemma take_nonpos (n : Z) (s : cstring) : n <= 0 -> take n s = [].
Proof.
  intros H. destruct s; simpl;
    replace (n <=? 0) with true by (symmetry; now apply Z.leb_le);
    reflexivity.
Qed.

Lemma erase_front (s : cstring) (n : Z) : erase s 0 n = drop n s.
Proof.
  unfold erase. rewrite take_nonpos by lia.
  now rewrite (drop_nonpos 0) by lia.
Qed.

Lemma index_first_app (p : ascii -> bool) (pre : cstring) (c : ascii)
    (post : cstring) :
  Forall (fun x => p x = false) pre -> p c = true ->
  index_first p (pre ++ c :: post) = Some (List.length pre).
Proof.
  intros Hpre Hc. induction Hpre as [|x pre Hx _ IH]; simpl.
  - now rewrite Hc.
  - now rewrite Hx, IH.
Qed.

Lemma index_first_none (p : ascii -> bool) (s : cstring) :
  Forall (fun x => p x = false) s -> index_first p s = None.
Proof.
  induction 1 as [|x s Hx _ IH]; simpl; [reflexivity|]. now rewrite Hx, IH.
Qed.

Lemma index_last_none (p : ascii -> bool) (s : cstring) :
  Forall (fun x => p x = false) s -> index_last p s = None.
Proof.
  induction 1 as [|x s Hx _ IH]; simpl; [reflexivity|]. now rewrite IH, Hx.
Qed.

Lemma index_last_app (p : ascii -> bool) (pre : cstring) (c : ascii)
    (post : cstring) :
  p c = true -> Forall (fun x => p x = false) post ->
  index_last p (pre ++ c :: post) = Some (List.length pre).
Proof.
  intros Hc Hpost. induction pre as [|x pre IH]; simpl.
  - now rewrite (index_last_none p post Hpost), Hc.
  - now rewrite IH.
Qed.

Lemma not_blank (chars : cstring) (s : cstring) :
  Forall (fun c => one_of chars c = true) s ->
  Forall (fun c => negb (one_of chars c) = false) s.
Proof.
  intros H. eapply Forall_impl; [|exact H]. intros c ->. reflexivity.
Qed.

Lemma Forall_drop (P : ascii -> Prop) (n : Z) (s : cstring) :
  Forall P s -> Forall P (drop n s).
Proof.
  intros H. revert n. induction H as [|c s Hc Hs IH]; intros n; simpl;
    destruct (n <=? 0); auto.
Qed.

(** The two trimming calls of [stripString] on blanks around a core that
    begins and ends with a character that is not a blank. *)
Lemma strip_blanks (bl1 bl2 init rest : cstring) (a z : ascii) :
  Forall is_blank bl1 -> Forall is_blank bl2 ->
  one_of blanks a = false -> one_of blanks z = false ->
  a :: rest = init ++ [z] ->
  size (bl1 ++ (a :: rest) ++ bl2) < npos ->
  let input := bl1 ++ (a :: rest) ++ bl2 in
  let result := erase input 0 (find_first_not_of input blanks) in
  erase_from result (size_plus (find_last_not_of result blanks) 1)
  = a :: rest.
Proof.
  intros Hb1 Hb2 Ha Hz Hcore Hsize. cbv zeta.
  unfold find_first_not_of.
  cbn [app]. rewrite index_first_app;
    [|now apply not_blank | now rewrite Ha]. 
  cbn [pos_of]. rewrite erase_front, drop_app.
  change (a :: rest ++ bl2) with ((a :: rest) ++ bl2).
  rewrite Hcore, <- app_assoc. cbn [app].
  unfold find_last_not_of. rewrite index_last_app;
    [|now rewrite Hz | now apply not_blank].
  cbn [pos_of]. unfold erase_from, size_plus, size_modulus.
  assert (Hlen : Z.of_nat (List.length init) + 1 < 2 ^ 64).
  { unfold size in Hsize. rewrite Hcore, !length_app in Hsize.
    cbn [List.length] in Hsize. change npos with (2 ^ 64 - 1) in Hsize. lia. }
  rewrite Z.mod_small by lia.
  replace (Z.of_nat (List.length init) + 1)
    with (Z.of_nat (List.length (init ++ [z])))
    by (rewrite length_app; simpl; lia).
  change (init ++ z :: bl2) with (init ++ [z] ++ bl2).
  rewrite app_assoc. apply take_app.
Qed.

Lemma strip_quoted (bl1 bl2 w : cstring) :
  Forall is_blank bl1 -> Forall is_blank bl2 ->
  size (bl1 ++ dquote :: w ++ dquote :: bl2) < npos ->
  stripString (bl1 ++ dquote :: w ++ dquote :: bl2) = w.
Proof.
  intros Hb1 Hb2 Hsize. unfold stripString. cbv zeta.
  assert (Hin : bl1 ++ dquote :: w ++ dquote :: bl2
                = bl1 ++ (dquote :: w ++ [dquote]) ++ bl2)
    by (cbn [app]; now rewrite <- app_assoc).
  rewrite Hin in *.
  rewrite (strip_blanks bl1 bl2 (dquote :: w) (w ++ [dquote]) dquote dquote
             Hb1 Hb2 eq_refl eq_refl eq_refl Hsize).
  cbn [empty negb front hd andb]. change (Ascii.eqb dquote dquote) with true.
  cbv iota. rewrite erase_front. cbn [drop]. change (1 <=? 0) with false.
  cbv iota. rewrite drop_nonpos by lia.
  assert (Hne : empty (w ++ [dquote]) = false) by (destruct w; reflexivity).
  rewrite Hne. cbn [negb andb]. unfold back. rewrite last_last.
  change (Ascii.eqb dquote dquote) with true. cbv iota.
  unfold erase_from, size. rewrite length_app. cbn [List.length].
  replace (Z.of_nat (List.length w + 1) - 1) with (Z.of_nat (List.length w))
    by lia.
  apply take_app.
Qed.

(** X16. A value in double quotes with blanks around it is returned without
    the blanks and the quotes, whatever stands between the quotes. *)
Theorem stripString_quoted (bl1 bl2 w : cstring) :
  Forall is_blank bl1 -> Forall is_blank bl2 ->
  size (bl1 ++ dquote :: w ++ dquote :: bl2) < npos ->
  stripString (bl1 ++ dquote :: w ++ dquote :: bl2) = w.
Proof. exact (strip_quoted bl1 bl2 w). Qed.

Lemma stripString_quoted_witness :
  stripString (str " " ++ dquote :: str "UTM" ++ dquote :: str "  ")
  = str "UTM".
Proof.
  apply stripString_quoted.
  - repeat constructor.
  - repeat constructor.
  - vm_compute. reflexivity.
Defined.

(** X17. A value without quotes keeps everything between its first and its
    last character that is not a blank. *)
Theorem stripString_plain (bl1 bl2 init rest : cstring) (a z : ascii) :
  Forall is_blank bl1 -> Forall is_blank bl2 ->
  one_of (dquote :: blanks) a = false ->
  one_of (dquote :: blanks) z = false ->
  a :: rest = init ++ [z] ->
  size (bl1 ++ (a :: rest) ++ bl2) < npos ->
  stripString (bl1 ++ (a :: rest) ++ bl2) = a :: rest.
Proof.
  intros Hb1 Hb2 Ha Hz Hcore Hsize.
  cbn [one_of existsb] in Ha, Hz.
  apply orb_false_iff in Ha as [Haq Hab], Hz as [Hzq Hzb].
  unfold stripString. cbv zeta.
  rewrite (strip_blanks bl1 bl2 init rest a z Hb1 Hb2 Hab Hzb Hcore Hsize).
  cbn [empty negb front hd andb]. rewrite Haq.
  unfold back. rewrite Hcore, last_last, Hzq.
  destruct (init ++ [z]); reflexivity.
Qed.

Lemma stripString_plain_witness :
  stripString (str "  " ++ str "UTM ZONE" ++ str " ") = str "UTM ZONE".
Proof.
  apply (stripString_plain (str "  ") (str " ") (str "UTM ZON")
           (str "TM ZONE") "U" "E").
  - repeat constructor.
  - repeat constructor.
  - reflexivity.
  - reflexivity.
  - reflexivity.
  - vm_compute. reflexivity.
Defined.

Lemma occurs_refl (s : cstring) : occurs s s.
Proof. exists [], []. now rewrite app_nil_r. Qed.

Lemma occurs_trans (a b c : cstring) : occurs a b -> occurs b c -> occurs a c.
Proof.
  intros (p1 & q1 & ->) (p2 & q2 & ->).
  exists (p2 ++ p1), (q1 ++ q2). now rewrite <- !app_assoc.
Qed.

Lemma occurs_take (n : Z) (s : cstring) : occurs (take n s) s.
Proof. exists [], (drop n s). symmetry. apply take_drop. Qed.

Lemma occurs_drop (n : Z) (s : cstring) : occurs (drop n s) s.
Proof.
  exists (take n s), []. rewrite app_nil_r. symmetry. apply take_drop.
Qed.

(** X18. [stripString] only removes characters from the two ends: its result
    is a contiguous piece of its input. *)
Theorem stripString_occurs (input : cstring) : occurs (stripString input) input.
Proof.
  unfold stripString. cbv zeta. rewrite !erase_front. unfold erase_from.
  set (r1 := drop (find_first_not_of input blanks) input).
  set (r2 := take (size_plus (find_last_not_of r1 blanks) 1) r1).
  assert (H2 : occurs r2 input)
    by (eapply occurs_trans; [apply occurs_take | apply occurs_drop]).
  set (r3 := if negb (empty r2) && Ascii.eqb (front r2) dquote
             then drop 1 r2 else r2).
  assert (H3 : occurs r3 input).
  { unfold r3. destruct (negb (empty r2) && Ascii.eqb (front r2) dquote);
      [|exact H2].
    eapply occurs_trans; [apply occurs_drop | exact H2]. }
  destruct (negb (empty r3) && Ascii.eqb (back r3) dquote); [|exact H3].
  eapply occurs_trans; [apply occurs_take | exact H3].
Qed.

(** X19. A string of blanks only, the empty string included, is stripped to
    the empty string. *)
Theorem stripString_blank (input : cstring) :
  Forall is_blank input -> stripString input = [].
Proof.
  intros H. unfold stripString. cbv zeta. rewrite !erase_front.
  unfold erase_from, find_first_not_of.
  rewrite (index_first_none _ input (not_blank blanks input H)).
  cbn [pos_of].
  assert (Hd : Forall is_blank (drop npos input)) by now apply Forall_drop.
  unfold find_last_not_of.
  rewrite (index_last_none _ _ (not_blank blanks _ Hd)). cbn [pos_of].
  change (size_plus npos 1) with 0.
  rewrite take_nonpos by lia. reflexivity.
Qed.

Lemma stripString_blank_witness : stripString (str "   ") = [].
Proof. apply stripString_blank. repeat constructor. Defined.

(* ================================================================== *)
(** * More on extractProjectionInfo *)

Lemma getlines_nil (content : cstring) : getlines content = [] -> content = [].
Proof.
  destruct content as [|c t]; [reflexivity|]. cbn [getlines].
  destruct (Ascii.eqb c "010"); [discriminate|].
  destruct (getlines t); discriminate.
Qed.

(** The lines of a file after a newline do not depend on what comes
    before it. *)
Lemma getlines_app_newline (c1 c2 : cstring) :
  getlines (c1 ++ nl ++ c2) = getlines (c1 ++ nl) ++ getlines c2.
Proof.
  induction c1 as [|c c1 IH].
  - reflexivity.
  - cbn [app getlines]. rewrite IH.
    destruct (Ascii.eqb c "010"); [reflexivity|].
    destruct (getlines (c1 ++ nl)) as [|l ls] eqn:Hl; [|reflexivity].
    apply getlines_nil in Hl. destruct c1; discriminate.
Qed.

Lemma scan_lines_stops (l1 l2 : list cstring) (st st' : cstring * Z) :
  both_found st = false ->
  scan_lines l1 st = Ret st' -> both_found st' = true ->
  scan_lines (l1 ++ l2) st = Ret st'.
Proof.
  revert st. induction l1 as [|line l1 IH]; intros st Hst; cbn [scan_lines app].
  - intros [= <-] H. congruence.
  - destruct (scan_line line st) as [st1|e]; cbn [bind]; [|discriminate].
    destruct (both_found st1) eqn:H1; [auto|]. now apply IH.
Qed.

Lemma scan_lines_throws (l1 l2 : list cstring) (st : cstring * Z) (e : exn) :
  scan_lines l1 st = Throw e -> scan_lines (l1 ++ l2) st = Throw e.
Proof.
  revert st. induction l1 as [|line l1 IH]; intros st; cbn [scan_lines app];
    [discriminate|].
  destruct (scan_line line st) as [st1|e1]; cbn [bind]; [|auto].
  destruct (both_found st1); [discriminate|]. apply IH.
Qed.

(** X20. The scan stops at the line that completes the two fields, and at the
    line that throws: what the file holds after that line, well-formed or
    not, does not change the outcome. *)
Theorem extractProjectionInfo_stops (c1 c2 : cstring) :
  (forall projection utmZone,
     extractProjectionInfo (Some (c1 ++ nl)) [] 0
     = Ret (true, projection, utmZone) ->
     extractProjectionInfo (Some (c1 ++ nl ++ c2)) [] 0
     = Ret (true, projection, utmZone))
  /\ (forall e,
        extractProjectionInfo (Some (c1 ++ nl)) [] 0 = Throw e ->
        extractProjectionInfo (Some (c1 ++ nl ++ c2)) [] 0 = Throw e).
Proof.
  unfold extractProjectionInfo. rewrite (getlines_app_newline c1 c2). split.
  - intros p z.
    destruct (scan_lines (getlines (c1 ++ nl)) _) as [st|e] eqn:Hs;
      cbn [bind]; [|discriminate].
    intros [= Hb <- <-].
    rewrite (scan_lines_stops _ (getlines c2) (@pair cstring Z [] 0) st
               eq_refl Hs Hb).
    cbn [bind]. now rewrite Hb.
  - intros e.
    destruct (scan_lines (getlines (c1 ++ nl)) _) as [st|e1] eqn:Hs;
      cbn [bind]; [discriminate|].
    intros [= <-]. now rewrite (scan_lines_throws _ (getlines c2) _ _ Hs).
Qed.

Lemma extractProjectionInfo_stops_witness :
  extractProjectionInfo
    (Some ((str "MAP_PROJECTION = UTM" ++ nl ++ str "UTM_ZONE = 12") ++ nl
           ++ str "UTM_ZONE = abc" ++ nl)) [] 0
  = Ret (true, str "UTM", 12).
Proof.
  apply (proj1 (extractProjectionInfo_stops
                  (str "MAP_PROJECTION = UTM" ++ nl ++ str "UTM_ZONE = 12")
                  (str "UTM_ZONE = abc" ++ nl))).
  reflexivity.
Defined.

Lemma find_absent (key line : cstring) (pos count : Z) (trimmed : cstring) :
  ~ occurs key line -> substr line pos count = Ret trimmed ->
  find trimmed key = npos.
Proof.
  intros Hno Hsub. unfold substr in Hsub.
  destruct (size line <? pos); [discriminate|]. injection Hsub as <-.
  unfold find. destruct (index_of key _) as [i|] eqn:Hi; [|reflexivity].
  exfalso. apply Hno. apply index_of_Some in Hi as (pre & post & Hi & _).
  eapply occurs_trans; [exists pre, post; exact Hi|].
  eapply occurs_trans; [apply occurs_take | apply occurs_drop].
Qed.

Lemma scan_line_no_zone (line : cstring) (st st' : cstring * Z) :
  ~ occurs (str "UTM_ZONE") line ->
  scan_line line st = Ret st' -> snd st' = snd st.
Proof.
  intros Hno. unfold scan_line. destruct st as [p z].
  destruct (substr line _ _) as [trimmed|e] eqn:Hsub; cbn [bind];
    [|discriminate].
  rewrite (find_absent _ _ _ _ _ Hno Hsub), Z.eqb_refl. cbn [negb bind].
  match goal with
  | |- context [bind ?m _] => destruct m as [p1|e1]
  end; cbn [bind]; [|discriminate].
  now intros [= <-].
Qed.

Lemma scan_line_no_projection (line : cstring) (st st' : cstring * Z) :
  ~ occurs (str "MAP_PROJECTION") line ->
  scan_line line st = Ret st' -> fst st' = fst st.
Proof.
  intros Hno. unfold scan_line. destruct st as [p z].
  destruct (substr line _ _) as [trimmed|e] eqn:Hsub; cbn [bind];
    [|discriminate].
  rewrite (find_absent _ _ _ _ _ Hno Hsub), Z.eqb_refl. cbn [negb bind].
  match goal with
  | |- context [bind ?m _] => destruct m as [z1|e1]
  end; cbn [bind]; [|discriminate].
  now intros [= <-].
Qed.

Lemma scan_lines_keeps {A : Type} (field : cstring * Z -> A)
    (key : cstring) (lines : list cstring) :
  (forall line st st', ~ occurs key line ->
     scan_line line st = Ret st' -> field st' = field st) ->
  Forall (fun line => ~ occurs key line) lines ->
  forall st st', scan_lines lines st = Ret st' -> field st' = field st.
Proof.
  intros Hline Hall. induction Hall as [|line lines Hno _ IH];
    intros st st'; cbn [scan_lines].
  - now intros [= <-].
  - destruct (scan_line line st) as [st1|e] eqn:H1; cbn [bind];
      [|discriminate].
    rewrite <- (Hline _ _ _ Hno H1).
    destruct (both_found st1); [now intros [= <-] | apply IH].
Qed.

(** X21. A file in which no line holds the text of one of the two keys never
    yields success: when the function returns, the flag is false and the
    field of the missing key keeps its initial value. *)
Theorem extractProjectionInfo_missing_key (content : cstring)
    (found : bool) (projection : cstring) (utmZone : Z) :
  extractProjectionInfo (Some content) [] 0
  = Ret (found, projection, utmZone) ->
  (Forall (fun line => ~ occurs (str "UTM_ZONE") line) (getlines content) ->
   found = false /\ utmZone = 0)
  /\ (Forall (fun line => ~ occurs (str "MAP_PROJECTION") line)
             (getlines content) ->
      found = false /\ projection = []).
Proof.
  unfold extractProjectionInfo.
  destruct (scan_lines (getlines content) _) as [[p z]|e] eqn:Hs;
    cbn [bind fst snd]; [|discriminate].
  intros [= <- <- <-]. split; intros Hall.
  - pose proof (scan_lines_keeps snd _ _ scan_line_no_zone Hall _ _ Hs) as Hz.
    cbn [snd] in Hz. subst z. split; [|reflexivity].
    unfold both_found. cbn [snd]. apply andb_false_r.
  - pose proof (scan_lines_keeps fst _ _ scan_line_no_projection Hall _ _ Hs)
      as Hp.
    cbn [fst] in Hp. subst p. split; reflexivity.
Qed.

Lemma extractProjectionInfo_missing_key_witness :
  false = false /\ @nil ascii = [].
Proof.
  refine (proj2 (extractProjectionInfo_missing_key
                   (str "UTM_ZONE = 15" ++ nl) false [] 15 eq_refl) _).
  constructor; [|constructor]. apply index_of_None. reflexivity.
Defined.

(** ** A well-formed metadata file *)

Lemma getlines_line (l rest : cstring) :
  Forall (fun c => c <> "010"%char) l ->
  getlines (l ++ nl ++ rest) = l :: getlines rest.
Proof.
  induction 1 as [|c l Hc _ IH]; [reflexivity|].
  cbn [app getlines]. apply Ascii.eqb_neq in Hc. now rewrite Hc, IH.
Qed.

Lemma index_of_head (p s : cstring) :
  starts_with p s = true -> index_of p s = Some O.
Proof. intros H. destruct s; cbn [index_of]; now rewrite H. Qed.

Lemma find_not_occurs (key s : cstring) : ~ occurs key s -> find s key = npos.
Proof.
  intros Hno. unfold find. destruct (index_of key s) as [i|] eqn:Hi;
    [|reflexivity].
  exfalso. apply Hno. apply index_of_Some in Hi as (pre & post & -> & _).
  now exists pre, post.
Qed.

Lemma take_all (s : cstring) : take (Z.of_nat (List.length s)) s = s.
Proof. rewrite <- (app_nil_r s) at 2. apply take_app. Qed.

(** A line that begins and ends with a character that is not a blank is
    its own trimmed form. *)
Lemma trim_line_id (a z : ascii) (rest init : cstring) :
  one_of blanks a = false -> one_of blanks z = false ->
  a :: rest = init ++ [z] -> size (a :: rest) < npos ->
  substr (a :: rest) (find_first_not_of (a :: rest) blanks)
         (size_plus (find_last_not_of (a :: rest) blanks) 1)
  = Ret (a :: rest).
Proof.
  intros Ha Hz Hcore Hsize.
  unfold find_first_not_of. cbn [index_first]. rewrite Ha. cbn [negb pos_of].
  unfold find_last_not_of. rewrite Hcore.
  rewrite index_last_app; [|now rewrite Hz | constructor].
  cbn [pos_of]. unfold substr, size_plus, size_modulus.
  rewrite Hcore in Hsize. unfold size in *. rewrite length_app in *.
  cbn [List.length] in *. change npos with (2 ^ 64 - 1) in Hsize.
  rewrite Z.mod_small by lia.
  replace (Z.of_nat (List.length init + 1) <? Z.of_nat 0) with false
    by (symmetry; apply Z.ltb_ge; lia).
  rewrite drop_nonpos by (simpl; lia).
  replace (Z.of_nat (List.length init) + 1)
    with (Z.of_nat (List.length (init ++ [z])))
    by (rewrite length_app; simpl; lia).
  now rewrite take_all.
Qed.

Lemma digit_not_blank (d : ascii) :
  is_digit d = true -> one_of blanks d = false.
Proof.
  rewrite is_digit_range. intros H. unfold one_of, blanks. cbn [existsb].
  rewrite orb_false_r. apply orb_false_iff.
  split; apply Ascii.eqb_neq; intros ->; simpl in H; lia.
Qed.

Lemma index_of_digits (k : ascii) (key ds : cstring) :
  is_digit k = false -> forallb is_digit ds = true ->
  index_of (k :: key) ds = None.
Proof.
  intros Hk. induction ds as [|d ds IH]; intros Hds; [reflexivity|].
  simpl in Hds. apply andb_true_iff in Hds as [Hd Hds].
  cbn [index_of starts_with].
  replace (Ascii.eqb k d) with false
    by (symmetry; apply Ascii.eqb_neq; intros ->; congruence).
  cbn [andb]. now rewrite IH.
Qed.

Lemma stoi_space (c : ascii) (s : cstring) :
  is_space c = true -> stoi (c :: s) = stoi s.
Proof. intros H. unfold stoi. cbn [skip_spaces]. now rewrite H. Qed.

Lemma scan_projection_line (w p0 : cstring) (z0 : Z) :
  ~ occurs (str "UTM_ZONE") (projection_line w) ->
  size (projection_line w) < npos ->
  scan_line (projection_line w) (p0, z0) = Ret (w, z0).
Proof.
  intros Hno Hsize. unfold scan_line.
  assert (Hline : "M"%char :: str "AP_PROJECTION = " ++ dquote :: w ++ [dquote]
                  = (str "MAP_PROJECTION = " ++ dquote :: w) ++ [dquote])
    by reflexivity.
  assert (Htrim : substr (projection_line w)
                    (find_first_not_of (projection_line w) blanks)
                    (size_plus (find_last_not_of (projection_line w) blanks) 1)
                  = Ret (projection_line w))
    by exact (trim_line_id "M" dquote _ _ eq_refl eq_refl Hline Hsize).
  rewrite Htrim. cbn [bind].
  assert (Hk : find (projection_line w) (str "MAP_PROJECTION") = 0)
    by reflexivity.
  assert (He : find (projection_line w) (str "=") = 15) by reflexivity.
  rewrite Hk, He, (find_not_occurs _ _ Hno), Z.eqb_refl.
  change (negb (0 =? npos)) with true. cbn [negb]. cbv iota.
  change (size_plus 15 1) with 16.
  assert (Hv : substr_from (projection_line w) 16
               = Ret ([" "%char] ++ dquote :: w ++ dquote :: [])).
  { unfold substr_from.
    replace (size (projection_line w) <? 16) with false.
    - reflexivity.
    - symmetry. apply Z.ltb_ge. unfold size, projection_line.
      rewrite length_app. simpl. lia. }
  rewrite Hv. cbn [bind]. rewrite strip_quoted.
  - reflexivity.
  - repeat constructor.
  - constructor.
  - revert Hsize. unfold size, projection_line.
    cbn [app List.length str list_ascii_of_string].
    rewrite !length_app. cbn [List.length]. lia.
Qed.

Lemma scan_zone_line (ds p0 : cstring) (z0 : Z) :
  ds <> [] -> forallb is_digit ds = true ->
  numeral_value ds <= int_max ->
  size (zone_line ds) < npos ->
  scan_line (zone_line ds) (p0, z0) = Ret (p0, numeral_value ds).
Proof.
  intros Hne Hds Hmax Hsize. unfold scan_line.
  destruct (exists_last Hne) as (init & d & Hlast).
  assert (Hd : is_digit d = true).
  { rewrite Hlast, forallb_app in Hds.
    apply andb_true_iff in Hds as [_ Hds]. simpl in Hds.
    now rewrite andb_true_r in Hds. }
  assert (Hline : "U"%char :: str "TM_ZONE = " ++ ds
                  = (str "UTM_ZONE = " ++ init) ++ [d])
    by (rewrite Hlast, <- app_assoc; reflexivity).
  assert (Htrim : substr (zone_line ds)
                    (find_first_not_of (zone_line ds) blanks)
                    (size_plus (find_last_not_of (zone_line ds) blanks) 1)
                  = Ret (zone_line ds))
    by exact (trim_line_id "U" d _ _ eq_refl (digit_not_blank d Hd)
                Hline Hsize).
  rewrite Htrim. cbn [bind].
  assert (Hp : find (zone_line ds) (str "MAP_PROJECTION") = npos).
  { unfold find, zone_line. cbn [str list_ascii_of_string app].
    cbn [index_of starts_with]. cbn.
    pose proof (index_of_digits "M" (str "AP_PROJECTION") ds eq_refl Hds)
      as Hn.
    cbn [str list_ascii_of_string] in Hn. rewrite Hn. reflexivity. }
  assert (Hk : find (zone_line ds) (str "UTM_ZONE") = 0) by reflexivity.
  assert (He : find (zone_line ds) (str "=") = 9) by reflexivity.
  rewrite Hp, Hk, He, Z.eqb_refl.
  change (negb (0 =? npos)) with true. cbn [negb bind]. cbv iota.
  change (size_plus 9 1) with 10.
  assert (Hv : substr_from (zone_line ds) 10 = Ret (" "%char :: ds)).
  { unfold substr_from.
    replace (size (zone_line ds) <? 10) with false.
    - reflexivity.
    - symmetry. apply Z.ltb_ge. unfold size, zone_line.
      rewrite length_app. simpl. lia. }
  rewrite Hv. cbn [bind]. rewrite stoi_space by reflexivity.
  rewrite <- (app_nil_r ds) at 1.
  rewrite stoi_numeral by (simpl; auto). reflexivity.
Qed.

Lemma digit_not_newline (d : ascii) : is_digit d = true -> d <> "010"%char.
Proof. rewrite is_digit_range. intros H ->. simpl in H. lia. Qed.

(** X22. Round trip through a well-formed file: a quoted projection on a
    [MAP_PROJECTION] line followed by a numeral on a [UTM_ZONE] line is
    extracted as that projection and the value of the numeral.  The
    projection is not empty, holds no newline and does not spell the other
    key; the numeral is positive and fits an [int]. *)
Theorem extractProjectionInfo_well_formed (w ds : cstring) :
  w <> [] -> Forall (fun c => c <> "010"%char) w ->
  ~ occurs (str "UTM_ZONE") (projection_line w) ->
  ds <> [] -> forallb is_digit ds = true ->
  0 < numeral_value ds <= int_max ->
  size (metadata_text w ds) < npos ->
  extractProjectionInfo (Some (metadata_text w ds)) [] 0
  = Ret (true, w, numeral_value ds).
Proof.
  intros Hw Hnl Hno Hne Hds [Hpos Hmax] Hsize.
  assert (Hs1 : size (projection_line w) < npos /\ size (zone_line ds) < npos).
  { revert Hsize. unfold size, metadata_text. rewrite !length_app. lia. }
  destruct Hs1 as [Hs1 Hs2].
  assert (Hl1 : Forall (fun c => c <> "010"%char) (projection_line w)).
  { unfold projection_line. apply Forall_app. split.
    - repeat (constructor; [discriminate|]). constructor.
    - constructor; [discriminate|]. apply Forall_app. split; [assumption|].
      constructor; [discriminate | constructor]. }
  assert (Hl2 : Forall (fun c => c <> "010"%char) (zone_line ds)).
  { unfold zone_line. apply Forall_app. split.
    - repeat (constructor; [discriminate|]). constructor.
    - apply Forall_forall. intros d Hd. apply digit_not_newline.
      rewrite forallb_forall in Hds. now apply Hds. }
  unfold extractProjectionInfo, metadata_text.
  rewrite (getlines_line _ _ Hl1).
  rewrite <- (app_nil_r nl) at 1. rewrite (getlines_line _ _ Hl2).
  cbn [getlines scan_lines].
  rewrite (scan_projection_line w [] 0 Hno Hs1). cbn [bind].
  assert (Hb1 : both_found (w, 0) = false)
    by (unfold both_found; cbn [fst snd]; apply andb_false_r).
  rewrite Hb1, (scan_zone_line ds w 0 Hne Hds Hmax Hs2). cbn [bind].
  assert (Hb2 : both_found (w, numeral_value ds) = true).
  { unfold both_found. cbn [fst snd]. apply andb_true_iff. split.
    - destruct w; [contradiction | reflexivity].
    - apply negb_true_iff, Z.eqb_neq. lia. }
  rewrite Hb2. cbn [bind fst snd]. now rewrite Hb2.
Qed.

Lemma extractProjectionInfo_well_formed_witness :
  extractProjectionInfo (Some (metadata_text (str "UTM") (str "12"))) [] 0
  = Ret (true, str "UTM", numeral_value (str "12")).
Proof.
  apply extractProjectionInfo_well_formed.
  - discriminate.
  - repeat (constructor; [discriminate|]). constructor.
  - apply index_of_None. reflexivity.
  - discriminate.
  - reflexivity.
  - vm_compute. split; [reflexivity | discriminate].
  - vm_compute. reflexivity.
Defined.

(* ================================================================== *)
(** * More on the resolution of the source CRS *)

(** X23. A metadata file that is found and gives both fields decides the
    source CRS by its zone alone: a zone from 1 to 60 makes it the Northern
    string of that zone whatever the current source CRS is, and a zone
    outside that range leaves the current source CRS in place. *)
Theorem resolve_crs_valid_metadata (E : Env) (o : Options)
    (fname projection : cstring) (zone : Z) :
  locateMetadataFile E (input_dir o) fname <> [] ->
  extractProjectionInfo
    (open_file E (locateMetadataFile E (input_dir o) fname)) [] 0
  = Ret (true, projection, zone) ->
  (1 <= zone <= 60 ->
   forall crs,
     resolve_crs E o fname crs = Ret (getEPSGFromUTMZone zone false)
     /\ parseEPSG (getEPSGFromUTMZone zone false) = 32600 + zone)
  /\ (zone < 1 \/ 60 < zone ->
      forall crs, resolve_crs E o fname crs = Ret crs).
Proof.
  intros Hpath Hex. unfold resolve_crs. cbv zeta. rewrite Hex.
  destruct (locateMetadataFile E (input_dir o) fname) as [|c path];
    [contradiction|].
  cbn [empty bind]. split.
  - intros Hz crs. split; [|exact (parseEPSG_getEPSGFromUTMZone zone false Hz)].
    rewrite (getEPSGFromUTMZone_in_range zone false Hz).
    cbn [str list_ascii_of_string app empty negb andb].
    match goal with
    | |- context [cstring_eqb crs ?t] =>
        destruct (cstring_eqb crs t) eqn:He
    end; cbn [negb]; [|reflexivity].
    apply cstring_eqb_eq in He. now rewrite He.
  - intros Hz crs. now rewrite (getEPSGFromUTMZone_out_of_range zone false Hz).
Qed.

Lemma resolve_crs_valid_metadata_witness :
  resolve_crs sample_env sample_options scene_47_B4 (str "EPSG:32615")
  = Ret (getEPSGFromUTMZone 12 false)
  /\ parseEPSG (getEPSGFromUTMZone 12 false) = 32600 + 12.
Proof.
  refine (proj1 (resolve_crs_valid_metadata sample_env sample_options
                   scene_47_B4 (str "UTM") 12 _ _) _ (str "EPSG:32615")).
  - vm_compute. discriminate.
  - vm_compute. reflexivity.
  - lia.
Defined.

(* ================================================================== *)
(** * More on the runs of main *)

(** After the option loop, [main] validates before it works: from there
    on, a run that ends with success, or that made a clip call at all,
    had every required option, both directories, at least one dataset
    name and a readable mask extent. *)
Lemma main_validates_after_options (E : Env) (o : Options) :
  fst (main E o) = Exited EXIT_SUCCESS \/ clips (snd (main E o)) <> [] ->
  input_dir o <> [] /\ output_dir o <> [] /\ source_crs o <> []
  /\ mask_subset o <> [] /\ datasets o <> []
  /\ directory_exists E (input_dir o) = true
  /\ directory_exists E (output_dir o) = true
  /\ split_by_commas (datasets o) <> []
  /\ getShapefileExtent E (mask_subset o) <> None.
Proof.
  unfold main. cbv zeta.
  assert (Hfail : forall st0 : LoopState,
            clips st0 = [] ->
            fst (Exited EXIT_FAILURE, st0) = Exited EXIT_SUCCESS
            \/ clips (snd (Exited EXIT_FAILURE, st0)) <> [] -> False).
  { intros st0 H0 [H | H]; [discriminate H | now apply H]. }
  destruct (input_dir o) as [|c1 s1] eqn:H1; cbn [empty];
    [intros H; exfalso; eapply Hfail; [|exact H]; reflexivity|].
  destruct (output_dir o) as [|c2 s2] eqn:H2; cbn [empty];
    [intros H; exfalso; eapply Hfail; [|exact H]; reflexivity|].
  destruct (source_crs o) as [|c3 s3] eqn:H3; cbn [empty];
    [intros H; exfalso; eapply Hfail; [|exact H]; reflexivity|].
  destruct (mask_subset o) as [|c4 s4] eqn:H4; cbn [empty];
    [intros H; exfalso; eapply Hfail; [|exact H]; reflexivity|].
  destruct (datasets o) as [|c5 s5] eqn:H5; cbn [empty];
    [intros H; exfalso; eapply Hfail; [|exact H]; reflexivity|].
  destruct (directory_exists E (c1 :: s1)) eqn:H6; cbn [negb];
    [|intros H; exfalso; eapply Hfail; [|exact H]; reflexivity].
  destruct (directory_exists E (c2 :: s2)) eqn:H7; cbn [negb];
    [|intros H; exfalso; eapply Hfail; [|exact H]; reflexivity].
  destruct (split_by_commas (c5 :: s5)) as [|d ds] eqn:H8;
    [intros H; exfalso; eapply Hfail; [|exact H]; reflexivity|].
  destruct (getShapefileExtent E (c4 :: s4)) as [ext|] eqn:H9;
    [|intros H; exfalso; eapply Hfail; [|exact H]; reflexivity].
  intros _. repeat split; discriminate.
Qed.

Lemma parseEPSG_range (s : cstring) : int_min <= parseEPSG s <= int_max.
Proof.
  unfold parseEPSG.
  assert (Hm : int_min <= -1 <= int_max) by (unfold int_min, int_max; lia).
  destruct (negb (starts_with (str "EPSG:") s)); [exact Hm|].
  destruct (substr_from s (size (str "EPSG:"))) as [rest|e];
    cbn [bind]; [|exact Hm].
  destruct (stoi rest) as [n|e] eqn:Hs; [|exact Hm].
  now apply stoi_range in Hs.
Qed.

Section DriverFacts.

Variable E : Env.
Variable o : Options.
Variable bbox : BBox.

Lemma process_file_codes (band fname : cstring) (st : LoopState) :
  Forall (fun c => epsgCode c <> -1) (clips st) ->
  match process_file E o bbox band fname st with
  | Continue st' => Forall (fun c => epsgCode c <> -1) (clips st')
  | Abort _ st' => Forall (fun c => epsgCode c <> -1) (clips st')
  end.
Proof.
  intros Hst. rewrite process_file_cases.
  destruct (matched o band fname); [|assumption].
  destruct (resolve_crs E o fname (cur_crs st)) as [crs|e]; [|assumption].
  destruct (parseEPSG crs =? -1) eqn:Hc; [assumption|].
  apply Z.eqb_neq in Hc. cbv zeta.
  destruct (clipRasterByBBox E (clips st) _); cbn [clips];
    apply Forall_app; split; auto.
Qed.

Lemma process_file_abort_status (band fname : cstring) (st : LoopState) :
  True ->
  match process_file E o bbox band fname st with
  | Continue _ => True
  | Abort s _ => s <> Exited EXIT_SUCCESS
  end.
Proof.
  intros _. rewrite process_file_cases.
  destruct (matched o band fname); [|exact I].
  destruct (resolve_crs E o fname (cur_crs st)) as [crs|e]; [|discriminate].
  destruct (parseEPSG crs =? -1); [discriminate|]. cbv zeta.
  destruct (clipRasterByBBox E (clips st) _); [exact I | discriminate].
Qed.

(** The calls a loop over the files adds when it runs to its end. *)
Lemma for_each_files_complete (band : cstring) (list_files : list cstring) :
  forall st st',
    for_each (process_file E o bbox band) list_files st = Continue st' ->
    map call_files (clips st')
    = map call_files (clips st) ++ expected_files o [band] list_files.
Proof.
  unfold expected_files. cbn [flat_map]. rewrite app_nil_r.
  induction list_files as [|f files IH]; intros st st'; cbn [for_each].
  - intros [= <-]. cbn [filter map]. now rewrite app_nil_r.
  - rewrite process_file_cases. cbn [filter].
    destruct (matched o band f).
    + destruct (resolve_crs E o f (cur_crs st)) as [crs|e]; [|discriminate].
      destruct (parseEPSG crs =? -1); [discriminate|]. cbv zeta.
      destruct (clipRasterByBBox E (clips st) _); [|discriminate].
      intros H. rewrite (IH _ _ H). cbn [clips map].
      rewrite map_app, <- app_assoc. reflexivity.
    + apply IH.
Qed.

Lemma driver_loop_complete (list_datasets list_files : list cstring) :
  forall st st',
    driver_loop E o bbox list_datasets list_files st = Continue st' ->
    map call_files (clips st')
    = map call_files (clips st) ++ expected_files o list_datasets list_files.
Proof.
  unfold driver_loop.
  induction list_datasets as [|band bands IH]; intros st st'; cbn [for_each].
  - intros [= <-]. unfold expected_files. cbn [flat_map].
    now rewrite app_nil_r.
  - destruct (for_each (process_file E o bbox band) list_files st)
      as [st1|s st1] eqn:H1; [|discriminate].
    intros H. rewrite (IH _ _ H), (for_each_files_complete _ _ _ _ H1).
    rewrite <- app_assoc. f_equal.
    unfold expected_files. cbn [flat_map]. now rewrite app_nil_r.
Qed.

End DriverFacts.

(** After the option loop, a run that ends with success made exactly one
    clip call for each dataset name and each listed file that passes the
    filters, dataset by dataset and, within a dataset, in the sorted order
    of the file names; every one of these calls succeeded. *)
Lemma main_success_calls_after_options (E : Env) (o : Options) :
  fst (main E o) = Exited EXIT_SUCCESS ->
  map call_files (clips (snd (main E o)))
  = expected_files o (split_by_commas (datasets o))
      (sort (listFilesInDirectory E (input_dir o)))
  /\ all_clips_ok E (clips (snd (main E o))).
Proof.
  destruct (main_cases E o) as [-> | (ext & _ & ->)]; [discriminate|].
  pose proof (driver_loop_invariant E o (inflate ext) _ _
                (process_file_abort_status E o (inflate ext))
                (split_by_commas (datasets o))
                (sort (listFilesInDirectory E (input_dir o)))
                {| cur_crs := source_crs o; clips := [] |} I) as Hst.
  pose proof (driver_loop_invariant E o (inflate ext) _ _
                (process_file_stops_at_failure E o (inflate ext))
                (split_by_commas (datasets o))
                (sort (listFilesInDirectory E (input_dir o)))
                {| cur_crs := source_crs o; clips := [] |}
                (all_clips_ok_nil E)) as Hok.
  destruct (driver_loop E o (inflate ext) _ _ _) as [st|s st] eqn:Hloop;
    cbn [fst snd].
  - intros _. split; [|exact Hok].
    now rewrite (driver_loop_complete E o (inflate ext) _ _ _ _ Hloop).
  - intros ->. now contradiction Hst.
Qed.

(** X26. No clip call of any run carries the failure value [-1] as its EPSG
    code, and every code fits an [int]. *)
Theorem main_codes_valid (E : Env) (o : Options) :
  Forall (fun c => epsgCode c <> -1 /\ int_min <= epsgCode c <= int_max)
         (clips (snd (main E o))).
Proof.
  assert (H1 : Forall (fun c => epsgCode c <> -1) (clips (snd (main E o)))).
  { destruct (main_cases E o) as [-> | (ext & _ & ->)]; [constructor|].
    pose proof (driver_loop_invariant E o (inflate ext) _ _
                  (process_file_codes E o (inflate ext))
                  (split_by_commas (datasets o))
                  (sort (listFilesInDirectory E (input_dir o)))
                  {| cur_crs := source_crs o; clips := [] |}
                  (Forall_nil _)) as Hinv.
    destruct (driver_loop E o (inflate ext) _ _ _); exact Hinv. }
  assert (H2 : Forall (fun c => configured_or_northern o (epsgCode c))
                      (clips (snd (main E o)))).
  { destruct (main_cases E o) as [-> | (ext & _ & ->)]; [constructor|].
    pose proof (driver_loop_invariant E o (inflate ext) _ _
                  (process_file_crs_invariant E o (inflate ext))
                  (split_by_commas (datasets o))
                  (sort (listFilesInDirectory E (input_dir o)))
                  {| cur_crs := source_crs o; clips := [] |}) as Hinv.
    assert (H0 : crs_invariant o {| cur_crs := source_crs o; clips := [] |})
      by (split; [now left | constructor]).
    specialize (Hinv H0).
    destruct (driver_loop E o (inflate ext) _ _ _); apply Hinv. }
  rewrite Forall_forall in *. intros c Hc. split; [now apply H1|].
  destruct (H2 c Hc) as [-> | (zone & Hz & ->)].
  - apply parseEPSG_range.
  - unfold int_min, int_max. lia.
Qed.

Lemma In_insert_sorted (x y : cstring) (l : list cstring) :
  In y (insert_sorted x l) <-> y = x \/ In y l.
Proof.
  induction l as [|z l IH]; cbn [insert_sorted].
  - simpl. intuition.
  - destruct (cstring_ltb z x); simpl; rewrite ?IH; intuition.
Qed.

(** Sorting keeps the file names: it neither drops nor invents one. *)
Lemma In_sort (y : cstring) (l : list cstring) : In y (sort l) <-> In y l.
Proof.
  unfold sort. induction l as [|x l IH]; cbn [fold_right]; [tauto|].
  rewrite In_insert_sorted, IH. simpl. intuition.
Qed.

Lemma matched_true (o : Options) (band fname : cstring) :
  matched o band fname = true ->
  (pattern o = [] \/ find_pattern fname (pattern o) = true)
  /\ find_pattern fname (str "_" ++ band) = true
  /\ extension (splitPath fname) = str ".tif".
Proof.
  unfold matched. rewrite !andb_true_iff, negb_true_iff, andb_false_iff.
  rewrite !negb_false_iff, cstring_eqb_eq.
  intros [[Hp Hb] He]. repeat split; try assumption.
  destruct Hp as [Hp | Hp]; [left | now right].
  destruct (pattern o); [reflexivity | discriminate].
Qed.

Lemma resolve_crs_throws (E : Env) (o : Options) (fname crs : cstring)
    (e : exn) :
  resolve_crs E o fname crs = Throw e ->
  locateMetadataFile E (input_dir o) fname <> []
  /\ extractProjectionInfo
       (open_file E (locateMetadataFile E (input_dir o) fname)) [] 0
     = Throw e.
Proof.
  unfold resolve_crs. cbv zeta.
  destruct (locateMetadataFile E (input_dir o) fname) as [|c path] eqn:Hp;
    cbn [empty]; [discriminate|].
  destruct (extractProjectionInfo _ [] 0) as [[[found p] zone]|e0];
    cbn [bind].
  - destruct found; [|discriminate].
    destruct (negb (empty (getEPSGFromUTMZone zone false))
              && negb (cstring_eqb crs (getEPSGFromUTMZone zone false)));
      discriminate.
  - intros [= <-]. split; [discriminate | reflexivity].
Qed.

Section DriverOrigins.

Variable E : Env.
Variable o : Options.
Variable bbox : BBox.
Variable list_datasets : list cstring.
Variable list_files : list cstring.

Lemma process_file_origin (band fname : cstring) (st : LoopState) :
  In band list_datasets -> In fname list_files ->
  Forall (call_origin E o list_datasets list_files) (clips st) ->
  match process_file E o bbox band fname st with
  | Continue st' => Forall (call_origin E o list_datasets list_files) (clips st')
  | Abort _ st' => Forall (call_origin E o list_datasets list_files) (clips st')
  end.
Proof.
  intros Hband Hfile Hst. rewrite process_file_cases.
  destruct (matched o band fname) eqn:Hm; [|assumption].
  destruct (resolve_crs E o fname (cur_crs st)) as [crs|e]; [|assumption].
  destruct (parseEPSG crs =? -1); [assumption|]. cbv zeta.
  assert (Hcall : call_origin E o list_datasets list_files
                    (clip_call o bbox fname crs)).
  { apply matched_true in Hm as (Hp & Hb & He).
    exists band, fname. cbn [clip_call inFile outFile]. auto 10. }
  destruct (clipRasterByBBox E (clips st) _); cbn [clips];
    apply Forall_app; split; auto.
Qed.

Lemma driver_loop_origin (st : LoopState) :
  Forall (call_origin E o list_datasets list_files) (clips st) ->
  Forall (call_origin E o list_datasets list_files)
         (clips (state_of (driver_loop E o bbox list_datasets list_files st))).
Proof.
  intros Hst. unfold driver_loop.
  set (P := fun st0 : LoopState =>
              Forall (call_origin E o list_datasets list_files) (clips st0)).
  set (Q := fun (_ : status) (st0 : LoopState) =>
              Forall (call_origin E o list_datasets list_files) (clips st0)).
  assert (Hbody : forall band st0, In band list_datasets -> P st0 ->
            match for_each (process_file E o bbox band) list_files st0 with
            | Continue st' => P st'
            | Abort s st' => Q s st'
            end).
  { intros band st0 Hband. apply (for_each_invariant_in P Q).
    intros fname st1 Hfile. now apply process_file_origin. }
  pose proof (for_each_invariant_in P Q _ list_datasets Hbody st Hst)
    as Houter.
  destruct (for_each _ list_datasets st); exact Houter.
Qed.

Lemma process_file_terminated (band fname : cstring) (st : LoopState) :
  In fname list_files -> True ->
  match process_file E o bbox band fname st with
  | Continue _ => True
  | Abort s _ => terminated_by_metadata E o list_files s
  end.
Proof.
  intros Hfile _. rewrite process_file_cases.
  destruct (matched o band fname); [|exact I].
  destruct (resolve_crs E o fname (cur_crs st)) as [crs|e] eqn:Hr.
  - destruct (parseEPSG crs =? -1); [exact I|]. cbv zeta.
    destruct (clipRasterByBBox E (clips st) _); exact I.
  - apply resolve_crs_throws in Hr as [Hp He]. exists fname. auto.
Qed.

End DriverOrigins.

(** X27. Every clip call of a run, complete or aborted, comes from a dataset
    name of the option and a file of the input directory whose name holds
    the pattern (when one is given) and ["_"] followed by the dataset name
    and whose extension is [".tif"]; its two paths are built from that
    file name. *)
Theorem main_calls_matched (E : Env) (o : Options) (c : ClipCall) :
  In c (clips (snd (main E o))) ->
  call_origin E o (split_by_commas (datasets o))
    (listFilesInDirectory E (input_dir o)) c.
Proof.
  destruct (main_cases E o) as [-> | (ext & _ & ->)]; [intros []|].
  intros Hin.
  pose proof (driver_loop_origin E o (inflate ext)
                (split_by_commas (datasets o))
                (sort (listFilesInDirectory E (input_dir o)))
                {| cur_crs := source_crs o; clips := [] |}
                (Forall_nil _)) as Hall.
  rewrite Forall_forall in Hall.
  assert (Hc : call_origin E o (split_by_commas (datasets o))
                 (sort (listFilesInDirectory E (input_dir o))) c).
  { apply Hall. destruct (driver_loop E o (inflate ext) _ _ _); exact Hin. }
  destruct Hc as (band & fname & Hb & Hf & Hrest).
  exists band, fname. split; [assumption|]. split; [|assumption].
  now apply In_sort.
Qed.

Lemma main_calls_matched_witness :
  call_origin sample_env sample_options
    (split_by_commas (datasets sample_options))
    (listFilesInDirectory sample_env (input_dir sample_options))
    (clip_call sample_options sample_box scene_47_B4 (str "EPSG:32612")).
Proof.
  apply main_calls_matched. vm_compute. left. reflexivity.
Defined.

(** X28. [main] is terminated by an exception only through the metadata: the
    exception comes out of [extractProjectionInfo] on the metadata file
    that was found for one of the listed files.  With no metadata file in
    the directory a run always returns an exit code. *)
Theorem main_terminated_cause (E : Env) (o : Options) (e : exn) :
  fst (main E o) = Terminated e ->
  exists fname,
    In fname (listFilesInDirectory E (input_dir o))
    /\ locateMetadataFile E (input_dir o) fname <> []
    /\ extractProjectionInfo
         (open_file E (locateMetadataFile E (input_dir o) fname)) [] 0
       = Throw e.
Proof.
  destruct (main_cases E o) as [-> | (ext & _ & ->)]; [discriminate|].
  pose proof (driver_loop_invariant_in E o (inflate ext)
                (fun _ => True)
                (fun s _ => terminated_by_metadata E o
                              (sort (listFilesInDirectory E (input_dir o))) s)
                (split_by_commas (datasets o))
                (sort (listFilesInDirectory E (input_dir o)))
                (fun band fname st Hin =>
                   process_file_terminated E o (inflate ext) _ band fname st
                     Hin)
                {| cur_crs := source_crs o; clips := [] |} I) as Hinv.
  destruct (driver_loop E o (inflate ext) _ _ _) as [st|s st]; cbn [fst];
    [discriminate|].
  intros ->. destruct Hinv as (fname & Hin & Hp & He).
  exists fname. split; [now apply In_sort | auto].
Qed.

Lemma main_terminated_cause_witness :
  exists fname,
    In fname [scene_48_B4; scene_47_B4]
    /\ locateMetadataFile (env_with_metadata (str "UTM_ZONE = abc" ++ nl))
         (str "in/") fname <> []
    /\ extractProjectionInfo
         (open_file (env_with_metadata (str "UTM_ZONE = abc" ++ nl))
            (locateMetadataFile
               (env_with_metadata (str "UTM_ZONE = abc" ++ nl))
               (str "in/") fname)) [] 0
       = Throw invalid_argument.
Proof.
  apply (main_terminated_cause
           (env_with_metadata (str "UTM_ZONE = abc" ++ nl)) sample_options
           invalid_argument).
  vm_compute. reflexivity.
Defined.

(* ================================================================== *)
(** * The trimming of a metadata line *)

Lemma take_app_more (a b : cstring) (n : Z) :
  0 <= n -> take (Z.of_nat (List.length a) + n) (a ++ b) = a ++ take n b.
Proof.
  intros Hn. induction a as [|x a IH].
  - reflexivity.
  - cbn [List.length app take].
    replace (Z.of_nat (S (List.length a)) + n <=? 0) with false
      by (symmetry; apply Z.leb_gt; lia).
    replace (Z.of_nat (S (List.length a)) + n - 1)
      with (Z.of_nat (List.length a) + n) by lia.
    now rewrite IH.
Qed.

(** X29. The first statement of the loop body passes [last + 1] as the count of
    [substr], not the length between the two positions: a line keeps as
    many of its trailing blanks as it had leading ones, and a line of
    blanks only, the empty line included, makes [substr] throw, which
    ends the scan of the file. *)
Theorem scan_line_trimming :
  (forall (bl1 bl2 init rest : cstring) (a z : ascii),
     Forall is_blank bl1 -> Forall is_blank bl2 ->
     one_of blanks a = false -> one_of blanks z = false ->
     a :: rest = init ++ [z] ->
     size (bl1 ++ (a :: rest) ++ bl2) < npos ->
     let line := bl1 ++ (a :: rest) ++ bl2 in
     substr line (find_first_not_of line blanks)
                 (size_plus (find_last_not_of line blanks) 1)
     = Ret ((a :: rest) ++ take (size bl1) bl2))
  /\ (forall (line : cstring) (st : cstring * Z),
        Forall is_blank line -> size line < npos ->
        scan_line line st = Throw out_of_range).
Proof.
  split.
  - intros bl1 bl2 init rest a z Hb1 Hb2 Ha Hz Hcore Hsize. cbv zeta.
    unfold find_first_not_of. cbn [app].
    rewrite index_first_app; [|now apply not_blank | now rewrite Ha].
    cbn [pos_of]. unfold find_last_not_of.
    change (bl1 ++ a :: rest ++ bl2) with (bl1 ++ (a :: rest) ++ bl2).
    rewrite Hcore.
    replace (bl1 ++ (init ++ [z]) ++ bl2) with ((bl1 ++ init) ++ z :: bl2)
      by (rewrite <- !app_assoc; reflexivity).
    rewrite index_last_app; [|now rewrite Hz | now apply not_blank].
    cbn [pos_of]. unfold substr, size_plus, size_modulus.
    assert (Hlen : Z.of_nat (List.length (bl1 ++ init)) + 1 < 2 ^ 64).
    { revert Hsize. unfold size. rewrite Hcore, !length_app.
      cbn [List.length]. change npos with (2 ^ 64 - 1). lia. }
    rewrite Z.mod_small by lia.
    replace (size ((bl1 ++ init) ++ z :: bl2) <? Z.of_nat (List.length bl1))
      with false
      by (symmetry; apply Z.ltb_ge; unfold size; rewrite !length_app; lia).
    rewrite <- app_assoc, drop_app.
    replace (init ++ z :: bl2) with ((init ++ [z]) ++ bl2)
      by (rewrite <- app_assoc; reflexivity).
    replace (Z.of_nat (List.length (bl1 ++ init)) + 1)
      with (Z.of_nat (List.length (init ++ [z])) + size bl1)
      by (unfold size; rewrite !length_app; simpl; lia).
    rewrite take_app_more by (unfold size; lia).
    rewrite <- Hcore. reflexivity.
  - intros line [p z] Hblank Hsize. unfold scan_line, find_first_not_of.
    rewrite (index_first_none _ line (not_blank blanks line Hblank)).
    cbn [pos_of]. unfold substr.
    replace (size line <? npos) with true
      by (symmetry; now apply Z.ltb_lt).
    reflexivity.
Qed.

Lemma scan_line_trimming_witness :
  let line := str "  " ++ str "UTM_ZONE = 12" ++ str "     " in
  substr line (find_first_not_of line blanks)
              (size_plus (find_last_not_of line blanks) 1)
  = Ret (str "UTM_ZONE = 12" ++ take (size (str "  ")) (str "     ")).
Proof.
  refine (proj1 scan_line_trimming (str "  ") (str "     ")
            (str "UTM_ZONE = 1") (str "TM_ZONE = 12") "U"%char "2"%char
            _ _ _ _ _ _).
  - repeat constructor.
  - repeat constructor.
  - reflexivity.
  - reflexivity.
  - reflexivity.
  - vm_compute. reflexivity.
Defined.

(* ================================================================== *)
(** * The output path when the two directories agree *)

(** X30. When the input and the output directory both end with a separator, or
    both lack one, the output path is the output directory joined with
    the stem, the label and the extension. *)
Theorem make_outFile_agreeing_dirs (o : Options) (file_parts : PathParts) :
  Ascii.eqb (back (input_dir o)) "/" = Ascii.eqb (back (output_dir o)) "/" ->
  make_outFile o file_parts
  = join_path (output_dir o)
      (stem file_parts ++ label o ++ extension file_parts).
Proof.
  intros H. rewrite make_outFile_input_keyed. unfold join_path.
  rewrite <- H. destruct (Ascii.eqb (back (input_dir o)) "/"); reflexivity.
Qed.

Lemma make_outFile_agreeing_dirs_witness :
  let o := {| input_dir := str "in"; output_dir := str "out";
              source_crs := str "EPSG:32615"; mask_subset := str "mask.shp";
              datasets := str "B4"; pattern := []; label := str "_clip";
              debug := false |} in
  make_outFile o (splitPath scene_47_B4)
  = join_path (str "out")
      (stem (splitPath scene_47_B4) ++ str "_clip"
       ++ extension (splitPath scene_47_B4)).
Proof.
  cbv zeta. apply make_outFile_agreeing_dirs. reflexivity.
Defined.

(* ================================================================== *)
(** * What std::stoi and parseEPSG accept *)

Lemma stoi_unfold (r : cstring) :
  stoi r =
  let s1 := skip_spaces r in
  let neg := match s1 with c :: _ => Ascii.eqb c "-" | [] => false end in
  let s2 := skip_sign s1 in
  match s2 with
  | c :: _ =>
      if is_digit c then
        let v := if neg then - digits_value 0 s2 else digits_value 0 s2 in
        if (int_min <=? v) && (v <=? int_max) then Ret v
        else Throw out_of_range
      else Throw invalid_argument
  | [] => Throw invalid_argument
  end.
Proof.
  unfold stoi, skip_sign. cbv zeta.
  destruct (skip_spaces r) as [|c t]; [reflexivity|].
  destruct (Ascii.eqb c "-"); [reflexivity|].
  destruct (Ascii.eqb c "+"); reflexivity.
Qed.

Lemma span_spaces (r : cstring) :
  exists ws, r = ws ++ skip_spaces r /\ forallb is_space ws = true.
Proof.
  induction r as [|c r (ws & Hr & Hws)]; [now exists []|].
  cbn [skip_spaces]. destruct (is_space c) eqn:Hc.
  - exists (c :: ws). cbn [app forallb]. rewrite Hc, Hws. split; [|reflexivity].
    now rewrite <- Hr.
  - now exists [].
Qed.

Lemma span_digits (s : cstring) :
  exists ds, s = ds ++ skip_digits s /\ forallb is_digit ds = true
             /\ no_digit_head (skip_digits s).
Proof.
  induction s as [|c s (ds & Hs & Hds & Hhead)]; [now exists []|].
  cbn [skip_digits]. destruct (is_digit c) eqn:Hc.
  - exists (c :: ds). cbn [app forallb]. rewrite Hc, Hds.
    split; [now rewrite <- Hs | auto].
  - exists []. cbn [app forallb no_digit_head]. auto.
Qed.

Lemma sign_split (s1 : cstring) :
  exists sign,
    s1 = sign ++ skip_sign s1
    /\ (sign = [] \/ sign = ["+"%char] \/ sign = ["-"%char])
    /\ match s1 with c :: _ => Ascii.eqb c "-" | [] => false end
       = cstring_eqb sign ["-"%char]
    /\ (sign = [] -> match s1 with
                     | c :: _ => Ascii.eqb c "-" = false
                                 /\ Ascii.eqb c "+" = false
                     | [] => True
                     end).
Proof.
  destruct s1 as [|c t]; [exists []; cbn; auto 6|].
  cbn [skip_sign]. destruct (Ascii.eqb c "-") eqn:Hm.
  - apply Ascii.eqb_eq in Hm. subst c. exists ["-"%char].
    repeat split; auto. discriminate.
  - destruct (Ascii.eqb c "+") eqn:Hp.
    + apply Ascii.eqb_eq in Hp. subst c. exists ["+"%char].
      repeat split; auto. discriminate.
    + exists []. repeat split; auto.
Qed.

Lemma stoi_spaces (ws x : cstring) :
  forallb is_space ws = true -> stoi (ws ++ x) = stoi x.
Proof.
  induction ws as [|c ws IH]; [reflexivity|]. cbn [forallb app].
  intros H. apply andb_true_iff in H as [Hc Hws].
  rewrite (stoi_space c _ Hc). now apply IH.
Qed.

(** [std::stoi] on a plus sign and a numeral. *)
Lemma stoi_plus (ds t : cstring) :
  ds <> [] -> forallb is_digit ds = true -> no_digit_head t ->
  numeral_value ds <= int_max ->
  stoi ("+"%char :: ds ++ t) = Ret (numeral_value ds).
Proof.
  intros Hne Hds Ht Hmax.
  destruct ds as [|c ds]; [contradiction|].
  pose proof Hds as Hall. simpl in Hds. apply andb_true_iff in Hds as [Hc _].
  rewrite stoi_unfold. cbv zeta. cbn [skip_spaces].
  change (is_space "+") with false. cbv iota. cbn [skip_sign].
  change (Ascii.eqb "+" "-") with false.
  change (Ascii.eqb "+" "+") with true. cbv iota. cbn [app]. rewrite Hc.
  change (c :: ds ++ t) with ((c :: ds) ++ t).
  rewrite (digits_value_app _ _ Hall Ht 0), <- numeral_value_fold.
  pose proof (numeral_fold_nonneg _ Hall 0 (Z.le_refl 0)) as Hpos.
  rewrite <- numeral_value_fold in Hpos.
  replace (int_min <=? numeral_value (c :: ds)) with true
    by (symmetry; apply Z.leb_le; unfold int_min; lia).
  replace (numeral_value (c :: ds) <=? int_max) with true
    by (symmetry; now apply Z.leb_le).
  reflexivity.
Qed.

(** [std::stoi] converts every text of the accepted form to its value. *)
Lemma stoi_sound (r : cstring) (n : Z) : stoi_accepts r n -> stoi r = Ret n.
Proof.
  intros (ws & sign & ds & t & -> & Hws & Hsign & Hne & Hds & Ht & -> & Hr).
  rewrite (stoi_spaces _ _ Hws).
  pose proof (numeral_fold_nonneg _ Hds 0 (Z.le_refl 0)) as Hpos.
  rewrite <- numeral_value_fold in Hpos.
  destruct Hsign as [-> | [-> | ->]]; cbn [cstring_eqb app] in *.
  - apply stoi_numeral; auto. lia.
  - change (Ascii.eqb "+" "-") with false in *. cbn [andb] in *.
    apply stoi_plus; auto. lia.
  - change (Ascii.eqb "-" "-") with true in *. cbn [andb] in *.
    apply stoi_negative; auto. lia.
Qed.

(** ... and nothing else: a value returned by [std::stoi] comes from a
    text of the accepted form. *)
Lemma stoi_complete (r : cstring) (n : Z) : stoi r = Ret n -> stoi_accepts r n.
Proof.
  rewrite stoi_unfold. cbv zeta.
  destruct (span_spaces r) as (ws & Hr & Hws).
  destruct (sign_split (skip_spaces r)) as (sign & Hs1 & Hsign & Hneg & _).
  rewrite Hneg.
  destruct (span_digits (skip_sign (skip_spaces r)))
    as (ds & Hs2 & Hds & Hhead).
  destruct (skip_sign (skip_spaces r)) as [|c s2] eqn:Hskip; [discriminate|].
  destruct (is_digit c) eqn:Hc; [|discriminate].
  assert (Hne : ds <> []).
  { intros ->. cbn [app] in Hs2. rewrite <- Hs2 in Hhead.
    cbn [no_digit_head] in Hhead. congruence. }
  assert (Hdv : digits_value 0 (c :: s2) = numeral_value ds).
  { rewrite Hs2 at 1.
    now rewrite (digits_value_app _ _ Hds Hhead 0), <- numeral_value_fold. }
  rewrite Hdv.
  match goal with
  | |- context [(int_min <=? ?x) && (?x <=? int_max)] =>
      destruct ((int_min <=? x) && (x <=? int_max)) eqn:Hrange
  end; [|discriminate].
  intros [= <-]. apply andb_true_iff in Hrange as [H1 H2].
  apply Z.leb_le in H1, H2.
  exists ws, sign, ds, (skip_digits (c :: s2)).
  repeat split; auto.
  rewrite <- Hs2, <- Hs1. exact Hr.
Qed.

Lemma epsg_text_parses (s : cstring) (n : Z) :
  epsg_text s n -> parseEPSG s = n.
Proof.
  intros (r & -> & Hacc). rewrite parseEPSG_prefix.
  now rewrite (stoi_sound r n Hacc).
Qed.

Lemma parseEPSG_cases (s : cstring) :
  epsg_text s (parseEPSG s)
  \/ (parseEPSG s = -1 /\ forall m, ~ epsg_text s m).
Proof.
  destruct (starts_with (str "EPSG:") s) eqn:Hp.
  - apply starts_with_iff in Hp as [r ->].
    rewrite parseEPSG_prefix.
    destruct (stoi r) as [n|e] eqn:Hs.
    + left. exists r. split; [reflexivity|]. now apply stoi_complete.
    + right. split; [reflexivity|]. intros m (r' & Heq & Hacc).
      apply app_inv_head in Heq. subst r'.
      rewrite (stoi_sound r m Hacc) in Hs. discriminate.
  - right. split.
    + unfold parseEPSG. now rewrite Hp.
    + intros m (r & -> & _).
      assert (Ht : starts_with (str "EPSG:") (str "EPSG:" ++ r) = true)
        by (apply starts_with_iff; now exists r).
      congruence.
Qed.

(** C3, as the code has it.  [parseEPSG] returns [n] exactly when the
    string is ["EPSG:"] followed by a text that [std::stoi] converts to
    [n] (optional white space, an optional sign, a numeral whose value
    fits an [int], then anything that does not begin with a digit, which
    is ignored), and returns [-1] for every other string: a different
    prefix, no numeral after the prefix, a value that does not fit.  So
    ["EPSG:"] followed by a numeral for [n] gives [n] with or without a
    suffix; ["EPSG:32615"] and ["EPSG:32615abc"] give [32615];
    ["32615"], ["EPSG:"] and ["EPSG:abc"] give [-1]. *)
Theorem parseEPSG_spec :
  (forall s n,
     parseEPSG s = n <->
     epsg_text s n \/ (n = -1 /\ forall m, ~ epsg_text s m))
  /\ (forall s, starts_with (str "EPSG:") s = false -> parseEPSG s = -1)
  /\ (forall ds t,
        ds <> [] -> forallb is_digit ds = true -> no_digit_head t ->
        numeral_value ds <= int_max ->
        parseEPSG (str "EPSG:" ++ ds ++ t) = numeral_value ds)
  /\ (forall t,
        match skip_sign (skip_spaces t) with
        | c :: _ => is_digit c = false
        | [] => True
        end ->
        parseEPSG (str "EPSG:" ++ t) = -1)
  /\ parseEPSG (str "EPSG:32615") = 32615
  /\ parseEPSG (str "EPSG:32615abc") = 32615
  /\ parseEPSG (str "32615") = -1
  /\ parseEPSG (str "EPSG:") = -1
  /\ parseEPSG (str "EPSG:abc") = -1.
Proof.
  split; [|split; [|split; [|split; [|repeat split; reflexivity]]]].
  - intros s n. split.
    + intros <-. destruct (parseEPSG_cases s) as [H | [H1 H2]];
        [now left | right; now split].
    + intros [H | [-> H]]; [now apply epsg_text_parses|].
      destruct (parseEPSG_cases s) as [H' | [H1 _]]; [|exact H1].
      now apply H in H'.
  - intros s H. unfold parseEPSG. now rewrite H.
  - intros ds t Hne Hds Ht Hmax.
    now rewrite parseEPSG_prefix, stoi_numeral.
  - intros t Ht. rewrite parseEPSG_prefix, stoi_unfold. cbv zeta.
    destruct (skip_sign (skip_spaces t)) as [|c s2]; [reflexivity|].
    now rewrite Ht.
Qed.

(** C3, at ["32615"], ["EPSG:32615abc"] and ["EPSG:abc"]. *)
Lemma parseEPSG_spec_witness :
  parseEPSG (str "32615") = -1
  /\ parseEPSG (str "EPSG:" ++ str "32615" ++ str "abc")
     = numeral_value (str "32615")
  /\ parseEPSG (str "EPSG:" ++ str "abc") = -1.
Proof.
  destruct parseEPSG_spec as (_ & Hprefix & Hnum & Hnone & _).
  split; [|split].
  - apply Hprefix. reflexivity.
  - apply Hnum.
    + discriminate.
    + reflexivity.
    + reflexivity.
    + vm_compute. discriminate.
  - apply Hnone. reflexivity.
Defined.

(* ================================================================== *)
(** * splitPath: what the parts determine *)

Lemma cut_directory_rebuild (path : cstring) :
  size path < npos ->
  Forall (fun c => ~ is_separator c) (snd (cut_directory path))
  /\ (fst (cut_directory path) <> [] ->
      exists sep, is_separator sep
        /\ path = fst (cut_directory path) ++ sep :: snd (cut_directory path))
  /\ (fst (cut_directory path) = [] ->
      path = snd (cut_directory path)
      \/ exists sep, is_separator sep
           /\ path = sep :: snd (cut_directory path)).
Proof.
  intros Hsize.
  destruct (cut_directory_spec path Hsize) as [[Hcut Hno] | (sep & Hs & Hp & Hno)].
  - rewrite Hcut. cbn [fst snd]. split; [assumption|]. split.
    + intros H. now contradiction H.
    + intros _. now left.
  - split; [assumption|]. split.
    + intros _. now exists sep.
    + intros Hd. right. exists sep. split; [assumption|].
      rewrite Hd in Hp. exact Hp.
Qed.

(** C5, as the code has it.  For every path, [basename = stem ++
    extension], and a basename without a dot has an empty extension and is
    its own stem.  The basename holds no separator.  With a non-empty
    directory part the path is the directory, the separator that was cut
    ('/' or '\') and the basename: for a path without backslash, the
    directory joined to the basename by '/'.  With an empty directory part
    the path is the basename, or the basename after one separator: the
    parts do not tell a path that begins with its only separator from the
    bare file name.  The size of a [std::string] is below [npos]. *)
Theorem splitPath_parts (path : cstring) :
  let parts := splitPath path in
  basename parts = stem parts ++ extension parts
  /\ (Forall (fun c => c <> "."%char) (basename parts) ->
      extension parts = [] /\ stem parts = basename parts)
  /\ (size path < npos ->
      Forall (fun c => ~ is_separator c) (basename parts)
      /\ (directory parts <> [] ->
          exists sep, is_separator sep
            /\ path = directory parts ++ sep :: basename parts)
      /\ (directory parts = [] ->
          path = basename parts
          \/ exists sep, is_separator sep /\ path = sep :: basename parts)
      /\ (Forall (fun c => c <> "\"%char) path ->
          (directory parts <> [] ->
           path = directory parts ++ "/"%char :: basename parts)
          /\ (directory parts = [] ->
              path = basename parts
              \/ path = "/"%char :: basename parts))).
Proof.
  cbv zeta. rewrite splitPath_cuts. cbn [directory basename stem extension].
  split; [symmetry; apply cut_extension_app|].
  split.
  - intros H. rewrite (cut_extension_no_dot _ H). split; reflexivity.
  - intros Hsize.
    destruct (cut_directory_rebuild path Hsize) as (Hno & Hdir & Hnil).
    split; [assumption|]. split; [assumption|]. split; [assumption|].
    intros Hback.
    assert (Hslash : forall sep pre post,
              is_separator sep -> path = pre ++ sep :: post ->
              sep = "/"%char).
    { intros sep pre post [-> | ->] Hp; [reflexivity|]. exfalso.
      rewrite Forall_forall in Hback. apply (Hback "\"%char); [|reflexivity].
      rewrite Hp. apply in_or_app. right. now left. }
    split.
    + intros Hd. destruct (Hdir Hd) as (sep & Hs & Hp).
      now rewrite <- (Hslash sep _ _ Hs Hp).
    + intros Hd. destruct (Hnil Hd) as [Hp | (sep & Hs & Hp)]; [now left|].
      right. now rewrite <- (Hslash sep [] _ Hs Hp).
Qed.

(** C5, at ["data/in/scene_B4.tif"] and at ["a/b"]. *)
Lemma splitPath_parts_witness :
  let path := str "data/in/scene_B4.tif" in
  let parts := splitPath path in
  basename parts = stem parts ++ extension parts
  /\ (extension (splitPath (str "a/b")) = []
      /\ stem (splitPath (str "a/b")) = basename (splitPath (str "a/b")))
  /\ path = directory parts ++ "/"%char :: basename parts.
Proof.
  cbv zeta.
  destruct (splitPath_parts (str "data/in/scene_B4.tif")) as (H1 & _ & H3).
  destruct (splitPath_parts (str "a/b")) as (_ & H2 & _).
  split; [exact H1|]. split.
  - apply H2. repeat (constructor; [discriminate|]). constructor.
  - assert (Hs : size (str "data/in/scene_B4.tif") < npos)
      by (vm_compute; reflexivity).
    destruct (H3 Hs) as (_ & _ & _ & H4).
    apply H4.
    + repeat (constructor; [discriminate|]). constructor.
    + discriminate.
Defined.

(** C5 as stated fails: ["/a.tif"] and ["a.tif"] are split into the same
    parts, and the two paths differ by a leading separator, which no
    normalization of trailing separators removes.  So nothing computed
    from the directory and the basename gives every path back. *)
Lemma splitPath_leading_separator_lost :
  splitPath (str "/a.tif") = splitPath (str "a.tif")
  /\ normalize_path (str "/a.tif") <> normalize_path (str "a.tif")
  /\ ~ (exists join : cstring -> cstring -> cstring,
          forall path,
            normalize_path (join (directory (splitPath path))
                                 (basename (splitPath path)))
            = normalize_path path).
Proof.
  split; [reflexivity|]. split; [vm_compute; discriminate|].
  intros (join & H).
  pose proof (H (str "/a.tif")) as H1. pose proof (H (str "a.tif")) as H2.
  change (splitPath (str "/a.tif")) with (splitPath (str "a.tif")) in H1.
  rewrite H2 in H1. vm_compute in H1. discriminate H1.
Qed.

(* ================================================================== *)
(** * The whole program, option loop included *)

Lemma help_or_version_cons (r : OptResult) (rest : list OptResult) :
  help_or_version rest -> help_or_version (r :: rest).
Proof.
  intros (before & opt & optarg & after & -> & H).
  now exists (r :: before), opt, optarg, after.
Qed.

(** The option loop returns success only for [-h] and [-v]. *)
Lemma getopt_loop_success (results : list OptResult) :
  forall o0 o,
    getopt_loop results o0 = Returned EXIT_SUCCESS o ->
    help_or_version results.
Proof.
  induction results as [|[opt optarg] rest IH]; intros o0 o;
    cbn [getopt_loop]; [discriminate|].
  destruct (Ascii.eqb opt "h") eqn:Hh.
  - intros _. apply Ascii.eqb_eq in Hh.
    exists [], opt, optarg, rest. auto.
  - destruct (Ascii.eqb opt "v") eqn:Hv.
    + intros _. apply Ascii.eqb_eq in Hv.
      exists [], opt, optarg, rest. auto.
    + destruct (set_option o0 opt optarg) as [o'|]; [|discriminate].
      intros H. apply help_or_version_cons. exact (IH _ _ H).
Qed.

Lemma main_argv_cases (E : Env) (results : list OptResult) :
  (exists code o,
     getopt_loop results default_options = Returned code o
     /\ main_argv E results
        = (Exited code, {| cur_crs := source_crs o; clips := [] |}))
  \/ (exists o,
        getopt_loop results default_options = Parsed o
        /\ main_argv E results = main E o).
Proof.
  unfold main_argv.
  destruct (getopt_loop results default_options) as [o|code o];
    [right; now exists o | left; now exists code, o].
Qed.

(** X24. The program validates before it works.  A run that made a clip
    call at all went through the option loop to its end and had every
    required option, both directories, at least one dataset name and a
    readable mask extent; a run that ends with success either did so
    too, or was asked for the help or the version text, in which case it
    made no clip call. *)
Theorem program_validates (E : Env) (results : list OptResult) :
  (clips (snd (main_argv E results)) <> [] ->
   exists o,
     getopt_loop results default_options = Parsed o /\ validated E o)
  /\ (fst (main_argv E results) = Exited EXIT_SUCCESS ->
      (help_or_version results /\ clips (snd (main_argv E results)) = [])
      \/ exists o,
           getopt_loop results default_options = Parsed o /\ validated E o).
Proof.
  destruct (main_argv_cases E results)
    as [(code & o & Hloop & ->) | (o & Hloop & ->)]; cbn [fst snd clips].
  - split; [intros H; now contradiction H|].
    intros [= ->]. left. split; [|reflexivity].
    exact (getopt_loop_success _ _ _ Hloop).
  - split.
    + intros H. exists o. split; [assumption|].
      apply main_validates_after_options. now right.
    + intros H. right. exists o. split; [assumption|].
      apply main_validates_after_options. now left.
Qed.

Lemma program_validates_witness :
  exists o,
    getopt_loop sample_command_line default_options = Parsed o
    /\ validated sample_env o.
Proof.
  refine (proj1 (program_validates sample_env sample_command_line) _).
  vm_compute. discriminate.
Defined.

(** X25. A run of the program that ends with success was asked for the
    help or the version text and made no clip call, or went through the
    option loop to its end and made exactly one clip call for each dataset
    name and each listed file that passes the filters, dataset by dataset
    and, within a dataset, in the sorted order of the file names, every
    one of these calls succeeding. *)
Theorem program_success_calls (E : Env) (results : list OptResult) :
  fst (main_argv E results) = Exited EXIT_SUCCESS ->
  (help_or_version results /\ clips (snd (main_argv E results)) = [])
  \/ exists o,
       getopt_loop results default_options = Parsed o
       /\ map call_files (clips (snd (main_argv E results)))
          = expected_files o (split_by_commas (datasets o))
              (sort (listFilesInDirectory E (input_dir o)))
       /\ all_clips_ok E (clips (snd (main_argv E results))).
Proof.
  destruct (main_argv_cases E results)
    as [(code & o & Hloop & ->) | (o & Hloop & ->)]; cbn [fst snd clips].
  - intros [= ->]. left. split; [|reflexivity].
    exact (getopt_loop_success _ _ _ Hloop).
  - intros H. right. exists o. split; [assumption|].
    now apply main_success_calls_after_options.
Qed.

Lemma program_success_calls_witness :
  (help_or_version sample_command_line
   /\ clips (snd (main_argv sample_env sample_command_line)) = [])
  \/ exists o,
       getopt_loop sample_command_line default_options = Parsed o
       /\ map call_files (clips (snd (main_argv sample_env sample_command_line)))
          = expected_files o (split_by_commas (datasets o))
              (sort (listFilesInDirectory sample_env (input_dir o)))
       /\ all_clips_ok sample_env
            (clips (snd (main_argv sample_env sample_command_line))).
Proof.
  apply program_success_calls. vm_compute. reflexivity.
Defined.

(** The runs the option loop ends itself: help and version with success,
    an unknown option with failure, none of them with a clip call. *)
Example help_run :
  main_argv sample_env (("h"%char, []) :: sample_command_line)
  = (Exited EXIT_SUCCESS, {| cur_crs := []; clips := [] |})
  /\ main_argv sample_env (sample_command_line ++ [("v"%char, [])])
     = (Exited EXIT_SUCCESS, {| cur_crs := str "EPSG:32615"; clips := [] |})
  /\ main_argv sample_env (("?"%char, []) :: sample_command_line)
     = (Exited EXIT_FAILURE, {| cur_crs := []; clips := [] |})
  /\ main_argv sample_env sample_command_line = main sample_env sample_options.
Proof. repeat split. Qed.
